(** * EvoX tutorial notebooks: a shallow embedding

    The repository's sources are the documentation notebooks of the EvoX
    evolutionary-computation framework.  The code they contain is

    - [pong_preprocess]      (example "Solving Pong with EvoX"),
    - [OneMax.evaluate]      (guide "Custom algorithm and problem"),
    - [CustomGA.setup], [CustomGA.ask], [CustomGA.tell] (same guide),

    together with call sites of the workflow and monitor objects.  Arrays are
    lists (a matrix is a list of rows), fitness values are extended integers,
    and the random-number primitives of JAX are an interface the development
    is parametric in. *)

From Stdlib Require Import ZArith QArith Bool Lia.
From stdpp Require Import base tactics option list sorting.

Open Scope Z_scope.
Open Scope nat_scope.

(** ** Arrays *)

Module Jnp.

(** A two-dimensional array is a list of rows. *)
Abbreviation matrix A := (list (list A)).

(** [shape2 r c m]: [m.shape == (r, c)]. *)
Definition shape2 {A} (r c : nat) (m : matrix A) : Prop :=
  length m = r ∧ Forall (λ row, length row = c) m.

(** [shape3 r c d t]: [t.shape == (r, c, d)]. *)
Definition shape3 {A} (r c d : nat) (t : list (matrix A)) : Prop :=
  length t = r ∧ Forall (shape2 c d) t.

(** [a[lo:hi]] for [0 <= lo <= hi]; Python clamps both ends to the length. *)
Definition slice {A} (lo hi : nat) (a : list A) : list A :=
  take (hi - lo) (drop lo a).

(** [a[::2]]: the entries at the even positions. *)
Fixpoint stride2 {A} (a : list A) : list A :=
  match a with
  | [] => []
  | x :: rest => x :: match rest with
                      | [] => []
                      | _ :: rest' => stride2 rest'
                      end
  end.

(** [jnp.concatenate((a, b), axis=0)]. *)
Definition concatenate {A} (a b : list A) : list A := a ++ b.

(** [jnp.full((n,), v)]. *)
Definition full {A} (n : nat) (v : A) : list A := replicate n v.

(** [jnp.empty((r, c))]: JAX has no uninitialised memory and returns an
    array of zeros; in a Boolean population a zero reads as [False]. *)
Definition empty (r c : nat) : matrix bool := replicate r (replicate c false).

(** [jnp.sum(m, axis=1)] on a Boolean matrix: [True] counts as 1. *)
Definition sum_row (row : list bool) : Z :=
  foldr (λ b acc, (Z.b2z b + acc)%Z) 0%Z row.

Definition sum_axis1 (m : matrix bool) : list Z := sum_row <$> m.

(** [jnp.where(c(x), v, x)], elementwise on a matrix. *)
Definition where_ (c : Z → bool) (v : Z) (m : matrix Z) : matrix Z :=
  (λ row : list Z, (λ x, if c x then v else x) <$> row) <$> m.

End Jnp.

(** ** Fitness values

    The fitness arrays of the notebooks hold the integer row sums of OneMax
    and the placeholder [jnp.inf]; the only operations applied to them are
    comparison and negation.  They are modelled as integers extended with
    the two infinities. *)

Module Fitness.

Inductive t : Type :=
| NInf
| Fin (z : Z)
| PInf.

Definition leb (a b : t) : bool :=
  match a, b with
  | NInf, _ => true
  | _, PInf => true
  | Fin x, Fin y => (x <=? y)%Z
  | _, _ => false
  end.

Definition le (a b : t) : Prop := leb a b = true.

Definition neg (a : t) : t :=
  match a with
  | NInf => PInf
  | Fin z => Fin (- z)
  | PInf => NInf
  end.

Definition min (a b : t) : t := if leb a b then a else b.

(** [jnp.min] of a vector; [None] on the empty vector. *)
Fixpoint minimum (l : list t) : option t :=
  match l with
  | [] => None
  | x :: l' => match minimum l' with
               | None => Some x
               | Some m => Some (min x m)
               end
  end.

(** Smaller is better (EvoX minimises).  [no_worse new old]: the best
    value [new] is at least as good as [old]; having no value at all is
    the worst. *)
Definition no_worse (new old : option t) : Prop :=
  match old, new with
  | None, _ => True
  | Some _, None => False
  | Some o, Some n => le n o
  end.

End Fitness.

(** ** Pong: image preprocessing *)

Module Pong.
Import Jnp.

(** An image of shape (height, width, channels). *)
Abbreviation image := (list (list (list Z))).

(** [px[0]]: the first (red) channel of a pixel. *)
Definition channel0 (px : list Z) : Z := default 0%Z (px !! 0).

(** [img[::2, ::2, 0]]. *)
Definition downsample (img : image) : matrix Z :=
  (λ row : list (list Z), channel0 <$> stride2 row) <$> stride2 img.

Definition is_background (x : Z) : bool := (x =? 144)%Z || (x =? 109)%Z.
Definition is_nonzero (x : Z) : bool := negb (x =? 0)%Z.

Definition pong_preprocess (img : image) : matrix Z :=
  (* Crop the image. *)
  let img := slice 35 195 img in
  (* Downsample by factor of 2. *)
  let img := downsample img in
  (* Erase background (background type 1 and 2). *)
  let img := where_ is_background 0%Z img in
  (* Set everything else (paddles, ball) to 1. *)
  let img := where_ is_nonzero 1%Z img in
  img.

(** The red channel of the source pixel at row [i], column [j]. *)
Definition red (img : image) (i j : nat) : option Z :=
  row ← img !! i; px ← row !! j; px !! 0.

(** What the two [jnp.where] passes together make of a red value:
    background and zero give 0, anything else 1. *)
Definition binarize (r : Z) : Z :=
  if is_background r then 0%Z else if is_nonzero r then 1%Z else 0%Z.

(** Entry [(i, j)] of a matrix. *)
Definition entry (m : matrix Z) (i j : nat) : option Z :=
  row ← m !! i; row !! j.

End Pong.

(** ** OneMax *)

Module OneMax.
Import Jnp.

(** [OneMax.evaluate(self, state, bitstrings)]; the problem keeps no data
    of its own, the state it is handed is returned as it is. *)
Definition evaluate {S : Type} (state : S) (bitstrings : matrix bool)
  : list Z * S :=
  (* bitstrings has shape (pop_size, num_bits) so sum along the axis 1. *)
  let fitness := sum_axis1 bitstrings in
  (fitness, state).

(** The number of ones of a bitstring. *)
Definition ones (row : list bool) : nat := length (filter (λ b, b = true) row).

End OneMax.

(** ** Random numbers and variation operators

    [jax.random] is an external library, and the variation operators of
    [evox.operators] are not part of the notebooks.  The algorithm below is
    parametric in them; [flip_prob] and the uniform samples are rationals. *)

Class Primitives : Type := {
  prng_key : Type;
  (** [jax.random.split(key)] *)
  split : prng_key → prng_key * prng_key;
  (** [jax.random.split(key, 3)] *)
  split3 : prng_key → prng_key * prng_key * prng_key;
  (** [jax.random.uniform(key, (r, c))] *)
  uniform : prng_key → nat → nat → list (list Q);
  (** [evox.operators.mutation.bitflip(key, x, p)] *)
  bitflip : prng_key → list (list bool) → Q → list (list bool);
  (** [evox.operators.crossover.one_point(key, x)] *)
  one_point : prng_key → list (list bool) → list (list bool)
}.

(** What the algorithm relies on: the sampler returns the shape it is asked
    for, and mutation and crossover return as many individuals, of the same
    length, as they are given. *)
Class PrimitivesShape (R : Primitives) : Prop := {
  uniform_shape : ∀ k r c, Jnp.shape2 r c (uniform k r c);
  bitflip_shape : ∀ k x p r c, Jnp.shape2 r c x → Jnp.shape2 r c (bitflip k x p);
  one_point_shape : ∀ k x r c, Jnp.shape2 r c x → Jnp.shape2 r c (one_point k x)
}.

(** ** Selection *)

Module Selection.
Import Jnp.

(** Order on (index, fitness) pairs: by fitness, smaller first; among
    equal fitness values the lower index first, as [jax.lax.top_k] has it. *)
Definition by_fitness (a b : nat * Fitness.t) : Prop :=
  if Fitness.leb a.2 b.2
  then (if Fitness.leb b.2 a.2 then a.1 ≤ b.1 else True)
  else False.

#[global] Instance by_fitness_dec (a b : nat * Fitness.t) : Decision (by_fitness a b).
Proof. unfold by_fitness. repeat case_match; apply _. Defined.

(** The entries of [fit], each with its position, in ascending order of
    fitness. *)
Definition ranked (fit : list Fitness.t) : list (nat * Fitness.t) :=
  merge_sort by_fitness (zip (seq 0 (length fit)) fit).

(** Modelled from the spec: [evox.operators.selection.topk_fit] is not in
    the notebooks.  It selects the [topk] best individuals by fitness, where
    best is smallest (the placeholder fitness of [CustomGA.setup] is
    [jnp.inf], and the notebooks read the "minimum fitness" off the
    monitor): the fitness vector is ranked, the first [topk] positions are
    kept, and the population is indexed at those positions. *)
Definition topk_fit (pop : matrix bool) (fit : list Fitness.t) (topk : nat)
  : matrix bool * list Fitness.t :=
  let best := take topk (ranked fit) in
  ((λ p : nat * Fitness.t, default [] (pop !! p.1)) <$> best, best.*2).

End Selection.

(** ** CustomGA *)

Module CustomGA.
Import Jnp Selection.

(** The hyperparameters [self.pop_size], [self.ndim], [self.flip_prob]. *)
Record CustomGA : Type := {
  pop_size : nat;
  ndim : nat;
  flip_prob : Q
}.

(** The state built by [setup]: [State(pop=, offsprings=, fit=, key=)]. *)
Record State {R : Primitives} : Type := {
  pop : matrix bool;
  offsprings : matrix bool;
  fit : list Fitness.t;
  key : prng_key
}.

Section Methods.
Context {R : Primitives}.

(** Modelled from the spec: [evox.State.update] is not in the
    notebooks.  A state is an immutable snapshot: [update] returns a copy
    in which the fields named by the keyword arguments are replaced. *)
Definition update (state : State)
    (pop' : option (matrix bool)) (offsprings' : option (matrix bool))
    (fit' : option (list Fitness.t)) (key' : option prng_key) : State :=
  {| pop := default (pop state) pop';
     offsprings := default (offsprings state) offsprings';
     fit := default (fit state) fit';
     key := default (key state) key' |}.

(** [u < 0.5] *)
Definition lt_half (u : Q) : bool := negb (Qle_bool (1 # 2) u).

Variable self : CustomGA.

Definition setup (key : prng_key) : State :=
  let '(key, subkey) := split key in
  let pop := (λ row : list Q, lt_half <$> row)
               <$> uniform subkey (pop_size self) (ndim self) in
  {| pop := pop;
     offsprings := empty (pop_size self * 2) (ndim self);
     fit := full (pop_size self) Fitness.PInf;
     key := key |}.

Definition ask (state : State) : matrix bool * State :=
  let '(key, mut_key, x_key) := split3 (key state) in
  (* here we do mutation and crossover (reproduction) *)
  let offsprings :=
    concatenate (bitflip mut_key (pop state) (flip_prob self))
                (one_point x_key (pop state)) in
  (* return the candidate solution and update the state *)
  (offsprings, update state None (Some offsprings) None (Some key)).

Definition tell (state : State) (fitness : list Fitness.t) : State :=
  (* here we do selection *)
  let merged_pop := concatenate (pop state) (offsprings state) in
  let merged_fit := concatenate (fit state) fitness in
  let '(new_pop, new_fit) := topk_fit merged_pop merged_fit (pop_size self) in
  (* replace the old population *)
  update state (Some new_pop) None (Some new_fit) None.

(** The shapes of the three arrays of a state. *)
Definition well_shaped (state : State) : Prop :=
  shape2 (pop_size self) (ndim self) (pop state)
  ∧ length (fit state) = pop_size self
  ∧ shape2 (2 * pop_size self) (ndim self) (offsprings state).

(** The states reachable from [setup] by [ask] and [tell], where [tell]
    is given one fitness value per offspring. *)
Inductive reachable : State → Prop :=
| reach_setup k : reachable (setup k)
| reach_ask s : reachable s → reachable (ask s).2
| reach_tell s f :
    reachable s → length f = 2 * pop_size self → reachable (tell s f).

End Methods.

End CustomGA.

(** ** Workflow and monitor

    The workflow engine and the monitor are used by the notebooks but
    defined elsewhere in EvoX.  They are modelled after the calls the
    notebooks make and the words of the specification. *)

Module Workflow.
Import Jnp.

(** [opt_direction="min"] (the default) or ["max"]. *)
Inductive direction : Type := Minimize | Maximize.

(** The fitness as the algorithm and the monitor see it: with ["max"] the
    values are negated, so that smaller is better throughout (the OneMax
    notebook reports [-93], then [-100], for 93 and 100 ones). *)
Definition oriented (d : direction) (fitness : list Fitness.t) : list Fitness.t :=
  match d with
  | Minimize => fitness
  | Maximize => Fitness.neg <$> fitness
  end.

(** Modelled from the spec: the monitor is "an observer object that
    records metrics (fitness, population) emitted during workflow
    execution".  [StdSOMonitor] is not in the notebooks; the model keeps
    the fitness vector of every step, in order.  It is the view after
    [flush()], when everything emitted has been collected. *)
Record Monitor : Type := { fitness_history : list (list Fitness.t) }.

Definition new_monitor : Monitor := {| fitness_history := [] |}.

Definition record_fit (m : Monitor) (fitness : list Fitness.t) : Monitor :=
  {| fitness_history := fitness_history m ++ [fitness] |}.

(** Modelled from the spec: [monitor.get_best_fitness()], the minimum
    fitness achieved over everything recorded. *)
Definition get_best_fitness (m : Monitor) : option Fitness.t :=
  Fitness.minimum (concat (fitness_history m)).

Section Generic.
Context {R : Primitives}.

(** The base classes [evox.Algorithm] and [evox.Problem], as interfaces. *)
Class Algorithm (A Pop : Type) : Type := {
  alg_setup : prng_key → A;
  alg_ask : A → Pop * A;
  alg_tell : A → list Fitness.t → A
}.

Class Problem (P Pop : Type) : Type := {
  prob_setup : prng_key → P;
  prob_evaluate : P → Pop → list Fitness.t * P
}.

(** The state of a workflow: that of its algorithm and of its problem. *)
Record WorkflowState (A P : Type) : Type := {
  alg_state : A;
  prob_state : P
}.
#[global] Arguments alg_state {A P} _.
#[global] Arguments prob_state {A P} _.

Context {A P Pop : Type} {alg : Algorithm A Pop} {prob : Problem P Pop}.
Variable opt_direction : direction.

(** Modelled from the spec: [workflow.init(key) -> state].
    [StdWorkflow.init] is not in the notebooks; each component is set up
    with a key of its own. *)
Definition init (key : prng_key) : WorkflowState A P :=
  let '(alg_key, prob_key) := split key in
  {| alg_state := alg_setup alg_key; prob_state := prob_setup prob_key |}.

(** Modelled from the spec: [workflow.step(state) -> state].
    [StdWorkflow.step] is not in the notebooks; one iteration asks the
    algorithm for candidate solutions, has the problem evaluate them,
    hands the fitness to the monitor and tells it to the algorithm.  The
    monitor is an object outside the state; it is threaded next to it. *)
Definition step (sm : WorkflowState A P * Monitor)
  : WorkflowState A P * Monitor :=
  let '(state, monitor) := sm in
  let '(pop, a) := alg_ask (alg_state state) in
  let '(fitness, p) := prob_evaluate (prob_state state) pop in
  let fitness := oriented opt_direction fitness in
  let monitor := record_fit monitor fitness in
  let a := alg_tell a fitness in
  ({| alg_state := a; prob_state := p |}, monitor).

(** [state = workflow.init(key); for i in range(n): state = workflow.step(state)] *)
Definition run (key : prng_key) (n : nat) (monitor : Monitor)
  : WorkflowState A P * Monitor :=
  Nat.iter n step (init key, monitor).


End Generic.

(** [CustomGA] is an [Algorithm], [OneMax] a [Problem] without state. *)
#[global] Instance CustomGA_Algorithm {R : Primitives} (self : CustomGA.CustomGA)
  : Algorithm CustomGA.State (matrix bool) :=
  {| alg_setup := CustomGA.setup self;
     alg_ask := CustomGA.ask self;
     alg_tell := CustomGA.tell self |}.

#[global] Instance OneMax_Problem {R : Primitives} : Problem unit (matrix bool) :=
  {| prob_setup := λ _, tt;
     prob_evaluate := λ state bitstrings,
       let '(fitness, state) := OneMax.evaluate state bitstrings in
       (Fitness.Fin <$> fitness, state) |}.


End Workflow.

(** ** A reference instance of the primitives

    Keys are natural numbers and the operators are simple deterministic
    functions of the key: enough to run the algorithm on small inputs. *)

Module Reference.
Import Jnp.

Definition ref_uniform (k r c : nat) : list (list Q) :=
  (λ i, (λ j, inject_Z (Z.of_nat ((k + i + j) mod 2))) <$> seq 0 c) <$> seq 0 r.

(** Flips the bits whose position is congruent to the key modulo 3. *)
Definition ref_bitflip (k : nat) (x : matrix bool) (p : Q) : matrix bool :=
  imap (λ i (row : list bool),
          imap (λ j b, if (k + i + j) mod 3 =? 0 then negb b else b) row) x.

(** Child [i] is the head of parent [i] followed by the tail of the next
    parent, cut at a point drawn from the key. *)
Definition ref_one_point (k : nat) (x : matrix bool) : matrix bool :=
  imap (λ i (row : list bool),
          let mate := default row (x !! (S i mod length x)) in
          let point := k mod S (length row) in
          take point row ++ drop point mate) x.

#[global] Instance ref_primitives : Primitives :=
  {| prng_key := nat;
     split := λ k, (2 * k + 1, 2 * k + 2);
     split3 := λ k, (3 * k + 1, 3 * k + 2, 3 * k + 3);
     uniform := ref_uniform;
     bitflip := ref_bitflip;
     one_point := ref_one_point |}.

(** The notebook's algorithm, scaled down: 4 individuals of 5 bits. *)
Definition small_ga : CustomGA.CustomGA :=
  {| CustomGA.pop_size := 4; CustomGA.ndim := 5; CustomGA.flip_prob := 1 # 10 |}.

(** A state of it, and a fitness vector for its eight offsprings (negated
    numbers of ones: the workflow maximises). *)
Definition small_state : CustomGA.State := CustomGA.setup small_ga 42.

Definition small_fitness : list Fitness.t :=
  Fitness.Fin <$> [-3; -2; -2; -2; -2; -3; -2; -3]%Z.

(** A Pong frame: brown background (red 144) with a green paddle (red 92)
    in column 16, rows 100 to 115. *)
Definition pong_frame : list (list (list Z)) :=
  (λ i, (λ j, if (j =? 16) && (100 <=? i) && (i <? 116)
              then [92; 186; 92]%Z else [144; 72; 17]%Z) <$> seq 0 160)
    <$> seq 0 210.

End Reference.

(** ** Pong: the input of the policy network *)

Module PongPolicy.
Import Jnp.

(** [x.reshape(-1)]: the rows of a matrix one after the other. *)
Definition reshape_flat {A} (x : list (list A)) : list A := concat x.

(** The first lines of [PongPolicy.__call__], up to the vector handed to
    [nn.Dense(128)].  The cast to [float32] represents 0 and 1 exactly and
    is the identity here; the dense layers and [jnp.argmax] that follow
    work on floating-point parameters and are not modelled. *)
Definition features (img : list (list (list Z))) : list Z :=
  let x := Pong.pong_preprocess img in
  (* x = x.astype(jnp.float32) *)
  let x := reshape_flat x in
  x.

End PongPolicy.

(** ** Runs of CustomGA under a fitness function *)

#[global] Instance fitness_eq_dec : EqDecision Fitness.t.
Proof. solve_decision. Defined.

#[global] Instance fitness_le_dec (a b : Fitness.t) : Decision (Fitness.le a b).
Proof. unfold Fitness.le. apply _. Defined.

Module Evolution.
Import Jnp CustomGA.

Section Evaluated.
Context {R : Primitives}.
Variable self : CustomGA.

(** The fitness of one individual, as a problem such as [OneMax] that
    evaluates row by row computes it. *)
Variable fitness_of : list bool → Fitness.t.

(** The states reached from [setup] when every [tell] is handed the
    fitness of the offsprings held in the state, which is how the algorithm
    is driven: [ask], evaluate, [tell]. *)
Inductive evaluated : State → Prop :=
| eval_setup k : evaluated (setup self k)
| eval_ask s : evaluated s → evaluated (ask self s).2
| eval_tell s : evaluated s → evaluated (tell self s (fitness_of <$> offsprings s)).

(** A fitness entry is in step with its individual: it is the individual's
    fitness, or still the placeholder [jnp.inf] of [setup]. *)
Definition in_step (row : list bool) (x : Fitness.t) : Prop :=
  x = Fitness.PInf ∨ x = fitness_of row.

End Evaluated.

(** The fitness [OneMax.evaluate] gives one bitstring. *)
Definition onemax_of (row : list bool) : Fitness.t := Fitness.Fin (sum_row row).

End Evolution.

(** ** More concrete inputs *)

Module Samples.
Import Jnp.

(** A frame cut short: 40 rows of 6 pixels, one bright pixel in row 37. *)
Definition short_frame : list (list (list Z)) :=
  (λ i, (λ j, if (i =? 37) && (j =? 2) then [236; 236; 236]%Z
              else [144; 72; 17]%Z) <$> seq 0 6) <$> seq 0 40.

(** [Reference.pong_frame] with the green and blue channels of every pixel
    set to zero. *)
Definition repainted_frame : list (list (list Z)) :=
  (λ row : list (list Z), (λ px, [Pong.channel0 px; 0; 0]%Z) <$> row)
    <$> Reference.pong_frame.

Definition three_bitstrings : list (list bool) :=
  [[false; true; false; true; true]; [true; true; true; true; true];
   [false; false; false; false; false]].

(** The state of [Reference.small_ga] after [setup] and one [ask]. *)
Definition asked_state : CustomGA.State :=
  (CustomGA.ask Reference.small_ga Reference.small_state).2.

(** A state whose population has been evaluated, and offsprings that are
    all worse than every member of it. *)
Definition settled_state : CustomGA.State :=
  CustomGA.tell Reference.small_ga asked_state Reference.small_fitness.

Definition worse_fitness : list Fitness.t :=
  Fitness.Fin <$> [0; 1; 0; -1; 0; 2; 0; 0]%Z.

(** Offsprings of which one is better than the whole population. *)
Definition better_fitness : list Fitness.t :=
  Fitness.Fin <$> [-5; 0; 0; 0; 0; 0; 0; 0]%Z.

End Samples.

(** * Properties *)

Section ArrayFacts.
Import Jnp.
Context {A : Type}.

Lemma stride2_lookup (a : list A) (i : nat) : stride2 a !! i = a !! (2 * i).
Proof.
  revert a. induction i as [|i IH]; intros [|x [|y a]]; try done.
  simpl. rewrite IH. replace (i + S (i + 0)) with (S (2 * i)) by lia. done.
Qed.

Lemma stride2_length (a : list A) : length (stride2 a) = Nat.div2 (S (length a)).
Proof.
  remember (length a) as n eqn:Hn. revert a Hn.
  induction n as [n IH] using lt_wf_ind. intros [|x [|y a]] ->; try done.
  simpl. f_equal. rewrite (IH (length a)); [done | simpl; lia | done].
Qed.

Lemma slice_length (lo hi : nat) (a : list A) :
  hi ≤ length a → length (slice lo hi a) = hi - lo.
Proof. intros. unfold slice. rewrite length_take, length_drop. lia. Qed.

Lemma slice_lookup (lo hi i : nat) (a : list A) :
  i < hi - lo → slice lo hi a !! i = a !! (lo + i).
Proof. intros. unfold slice. rewrite lookup_take_lt by done. apply lookup_drop. Qed.

End ArrayFacts.

(** ** Fitness order *)

Section FitnessFacts.
Import Fitness.

Lemma le_refl (a : t) : le a a.
Proof. destruct a; unfold le; simpl; try done. apply Z.leb_refl. Qed.

Lemma le_trans (a b c : t) : le a b → le b c → le a c.
Proof.
  unfold le. destruct a, b, c; simpl; try done.
  rewrite !Z.leb_le. lia.
Qed.

Lemma le_total (a b : t) : le a b ∨ le b a.
Proof.
  unfold le. destruct a, b; simpl; auto.
  rewrite !Z.leb_le. lia.
Qed.

Lemma leb_false_le (a b : t) : leb a b = false → le b a.
Proof. intros H. destruct (le_total a b) as [H'|H']; [unfold le in H'; congruence | done]. Qed.

Lemma min_le_l (a b : t) : le (min a b) a.
Proof.
  unfold min. destruct (leb a b) eqn:E; [apply le_refl | by apply leb_false_le].
Qed.

Lemma min_le_r (a b : t) : le (min a b) b.
Proof. unfold min. destruct (leb a b) eqn:E; [done | apply le_refl]. Qed.

Lemma min_cases (a b : t) : min a b = a ∨ min a b = b.
Proof. unfold min. destruct (leb a b); auto. Qed.

Lemma minimum_None (l : list t) : minimum l = None ↔ l = [].
Proof.
  destruct l as [|x l]; simpl; [done |]. by destruct (minimum l).
Qed.

(** The minimum is an entry of the vector and is below every entry. *)
Lemma minimum_Some (l : list t) (m : t) :
  minimum l = Some m → m ∈ l ∧ ∀ x, x ∈ l → le m x.
Proof.
  revert m. induction l as [|y l IH]; intros m; simpl; [done |].
  destruct (minimum l) as [m'|] eqn:E.
  - intros [= <-]. destruct (IH m' eq_refl) as [Hin Hle]. split.
    + destruct (min_cases y m') as [-> | ->]; [left | by right].
    + intros x [-> | Hx]%elem_of_cons; [apply min_le_l |].
      eapply le_trans; [apply min_le_r | by apply Hle].
  - intros [= <-]. apply minimum_None in E as ->. split; [left |].
    intros x [-> | Hx]%elem_of_cons; [apply le_refl | by apply elem_of_nil in Hx].
Qed.

Lemma no_worse_refl (o : option t) : no_worse o o.
Proof. destruct o; simpl; [apply le_refl | done]. Qed.

Lemma no_worse_trans (a b c : option t) :
  no_worse a b → no_worse b c → no_worse a c.
Proof.
  destruct a, b, c; simpl; try done. apply le_trans.
Qed.

(** A vector that holds, for every entry of another, an entry at least as
    good has a best value at least as good. *)
Lemma minimum_no_worse (new old : list t) :
  (∀ x, x ∈ old → ∃ y, y ∈ new ∧ le y x) →
  no_worse (minimum new) (minimum old).
Proof.
  intros H. destruct (minimum old) as [o|] eqn:Eo; [| by destruct (minimum new)].
  apply minimum_Some in Eo as [Hin _]. destruct (H o Hin) as (y & Hy & Hle).
  destruct (minimum new) as [n|] eqn:En; simpl.
  - apply minimum_Some in En as [_ Hmin]. eapply le_trans; [by apply Hmin | done].
  - apply minimum_None in En as ->. by apply elem_of_nil in Hy.
Qed.

Lemma minimum_app_no_worse (l l' : list t) :
  no_worse (minimum (l ++ l')) (minimum l).
Proof.
  apply minimum_no_worse. intros x Hx. exists x. split; [| apply le_refl].
  apply elem_of_app. by left.
Qed.

(** The best value of a concatenation depends on the best values of the
    parts only. *)
Lemma minimum_app (l l' : list t) :
  minimum (l ++ l') =
    match minimum l, minimum l' with
    | Some a, Some b => Some (min a b)
    | Some a, None => Some a
    | None, o => o
    end.
Proof.
  induction l as [|x l IH]; simpl; [done |].
  rewrite IH. destruct (minimum l) as [a|], (minimum l') as [b|]; try done.
  f_equal. unfold min.
  destruct (leb a b) eqn:Eab, (leb x a) eqn:Exa; simpl; rewrite ?Eab, ?Exa; try done.
  - assert (leb x b = true) as ->; [| done].
    by apply (le_trans x a b).
  - destruct (leb x b) eqn:Exb; [| done].
    apply leb_false_le in Eab. pose proof (le_trans x b a Exb Eab) as Hc.
    unfold le in Hc. congruence.
Qed.

End FitnessFacts.

(** ** Pong *)

Section PongFacts.
Import Jnp Pong.

Lemma where_length (c : Z → bool) (v : Z) (m : matrix Z) :
  length (where_ c v m) = length m.
Proof. unfold where_. by rewrite length_fmap. Qed.

Lemma where_entry (c : Z → bool) (v : Z) (m : matrix Z) (i j : nat) :
  entry (where_ c v m) i j = (λ x, if c x then v else x) <$> entry m i j.
Proof.
  unfold entry, where_. rewrite list_lookup_fmap.
  destruct (m !! i) as [row|]; simpl; [| done]. by rewrite list_lookup_fmap.
Qed.

Lemma where_shape (c : Z → bool) (v : Z) (m : matrix Z) (r k : nat) :
  shape2 r k m → shape2 r k (where_ c v m).
Proof.
  intros [Hr Hk]. split; [by rewrite where_length |].
  unfold where_. apply Forall_fmap. eapply Forall_impl; [exact Hk |].
  intros row Hrow. simpl. by rewrite length_fmap.
Qed.

Lemma downsample_entry (img : image) (i j : nat) :
  entry (downsample img) i j =
    channel0 <$> (row ← img !! (2 * i); row !! (2 * j)).
Proof.
  unfold entry, downsample. rewrite list_lookup_fmap, stride2_lookup.
  destruct (img !! (2 * i)) as [row|]; simpl; [| done].
  by rewrite list_lookup_fmap, stride2_lookup.
Qed.

Lemma downsample_shape (img : image) (r c d : nat) :
  shape3 r c d img →
  shape2 (Nat.div2 (S r)) (Nat.div2 (S c)) (downsample img).
Proof.
  intros [Hr Hc]. unfold downsample. split.
  - by rewrite length_fmap, stride2_length, Hr.
  - apply Forall_fmap, Forall_lookup. intros i row Hi. simpl.
    rewrite stride2_lookup in Hi.
    rewrite Forall_lookup in Hc. destruct (Hc _ _ Hi) as [Hlen _].
    by rewrite length_fmap, stride2_length, Hlen.
Qed.

Lemma slice_shape (img : image) (lo hi r c d : nat) :
  hi ≤ r → shape3 r c d img → shape3 (hi - lo) c d (slice lo hi img).
Proof.
  intros Hhi [Hr Hc]. split; [apply slice_length; lia |].
  unfold slice. by apply Forall_take, Forall_drop.
Qed.

Lemma binarize_where (r : Z) :
  (λ x, if is_nonzero x then 1 else x)%Z
    ((λ x, if is_background x then 0 else x)%Z r) = binarize r.
Proof.
  unfold binarize. destruct (is_background r) eqn:Eb; simpl; [done |].
  unfold is_nonzero. destruct (Z.eqb_spec r 0); simpl; [by subst | done].
Qed.

Lemma binarize_bit (r : Z) : binarize r = 0%Z ∨ binarize r = 1%Z.
Proof. unfold binarize. repeat case_match; auto. Qed.

(** C10.  On an image of shape (210, 160, 3), [pong_preprocess] returns an
    array of shape (80, 80); its entry (i, j) is computed from the red
    channel of the source pixel (35 + 2i, 2j): 0 when that is 144 or 109
    (background) or 0, and 1 otherwise.  Every entry is 0 or 1. *)
Theorem pong_preprocess_spec (img : image) (Hshape : shape3 210 160 3 img) :
  shape2 80 80 (pong_preprocess img)
  ∧ (∀ i j, i < 80 → j < 80 →
       ∃ r, red img (35 + 2 * i) (2 * j) = Some r
            ∧ entry (pong_preprocess img) i j = Some (binarize r)
            ∧ ((r = 144 ∨ r = 109)%Z → binarize r = 0%Z)
            ∧ (r ≠ 144 → r ≠ 109 → r ≠ 0 → binarize r = 1%Z)%Z)
  ∧ (∀ i j x, entry (pong_preprocess img) i j = Some x → x = 0%Z ∨ x = 1%Z).
Proof.
  assert (Hentry : ∀ i j, i < 80 →
    entry (pong_preprocess img) i j
    = binarize <$> (channel0 <$> (row ← img !! (35 + 2 * i); row !! (2 * j)))).
  { intros i j Hi. unfold pong_preprocess.
    rewrite !where_entry, downsample_entry, slice_lookup by lia.
    rewrite <- option_fmap_compose. apply option_fmap_ext. intros r. simpl.
    apply binarize_where. }
  assert (Hsh : shape2 80 80 (pong_preprocess img)).
  { unfold pong_preprocess. do 2 apply where_shape.
    apply (downsample_shape _ 160 160 3), (slice_shape _ 35 195 210); [lia | done]. }
  split; [done |]. split.
  - intros i j Hi Hj. destruct Hshape as [Hrows Hpx].
    destruct (lookup_lt_is_Some_2 img (35 + 2 * i)) as [row Hrow]; [lia |].
    rewrite Forall_lookup in Hpx. destruct (Hpx _ _ Hrow) as [Hcols Hch].
    destruct (lookup_lt_is_Some_2 row (2 * j)) as [px Hpix]; [lia |].
    rewrite Forall_lookup in Hch. specialize (Hch _ _ Hpix). simpl in Hch.
    destruct px as [|r px]; [done |]. exists r. split; [| split; [| split]].
    + unfold red. rewrite Hrow. cbn [mbind option_bind]. by rewrite Hpix.
    + rewrite Hentry by done. rewrite Hrow. cbn [mbind option_bind]. by rewrite Hpix.
    + unfold binarize, is_background. intros [-> | ->]; done.
    + intros H1 H2 H3. unfold binarize, is_background, is_nonzero.
      destruct (Z.eqb_spec r 144), (Z.eqb_spec r 109), (Z.eqb_spec r 0); done.
  - intros i j x Hx.
    destruct (decide (i < 80)) as [Hi | Hi].
    + rewrite Hentry in Hx by done.
      apply fmap_Some in Hx as (r & _ & ->). apply binarize_bit.
    + unfold entry in Hx. destruct Hsh as [Hlen _].
      rewrite (lookup_ge_None_2 (pong_preprocess img) i) in Hx by lia. done.
Qed.

End PongFacts.

(** ** OneMax *)

Section OneMaxFacts.
Import Jnp OneMax.

Lemma sum_row_ones (row : list bool) : sum_row row = Z.of_nat (ones row).
Proof.
  unfold ones. induction row as [|b row IH]; [done |].
  change (sum_row (b :: row)) with (Z.b2z b + sum_row row)%Z. rewrite IH.
  destruct b; [rewrite filter_cons_True by done | rewrite filter_cons_False by done];
    simpl length; simpl Z.b2z; lia.
Qed.

(** C4.  [OneMax.evaluate(state, bitstrings)] returns one fitness value per
    bitstring, the i-th being the number of ones of the i-th bitstring, and
    returns the state it was given. *)
Theorem evaluate_spec {S : Type} (state : S) (bitstrings : matrix bool) :
  length (evaluate state bitstrings).1 = length bitstrings
  ∧ (∀ i row, bitstrings !! i = Some row →
       (evaluate state bitstrings).1 !! i = Some (Z.of_nat (ones row)))
  ∧ (evaluate state bitstrings).2 = state.
Proof.
  unfold evaluate, sum_axis1. simpl. split; [by rewrite length_fmap |].
  split; [| done]. intros i row Hrow.
  by rewrite list_lookup_fmap, Hrow, <- sum_row_ones.
Qed.

End OneMaxFacts.

(** ** Selection *)

Section SelectionFacts.
Import Jnp Selection.

Lemma by_fitness_le (a b : nat * Fitness.t) :
  by_fitness a b → Fitness.le a.2 b.2.
Proof. unfold by_fitness, Fitness.le. by destruct (Fitness.leb a.2 b.2). Qed.

#[local] Instance by_fitness_total : Total by_fitness.
Proof.
  intros a b. unfold by_fitness.
  destruct (Fitness.leb a.2 b.2) eqn:Eab, (Fitness.leb b.2 a.2) eqn:Eba; auto.
  - lia.
  - apply leb_false_le in Eab. unfold Fitness.le in Eab. congruence.
Qed.

#[local] Instance by_fitness_trans : Transitive by_fitness.
Proof.
  intros a b c. unfold by_fitness.
  destruct (Fitness.leb a.2 b.2) eqn:Eab; [| done].
  destruct (Fitness.leb b.2 c.2) eqn:Ebc; [| by destruct (Fitness.leb b.2 a.2)].
  assert (Fitness.leb a.2 c.2 = true) as -> by (by apply (le_trans _ b.2)).
  destruct (Fitness.leb c.2 a.2) eqn:Eca; [| done].
  assert (Fitness.leb c.2 b.2 = true) as -> by (by apply (le_trans _ a.2)).
  assert (Fitness.leb b.2 a.2 = true) as -> by (by apply (le_trans _ c.2)).
  lia.
Qed.

Lemma ranked_perm (fit : list Fitness.t) :
  ranked fit ≡ₚ zip (seq 0 (length fit)) fit.
Proof. apply merge_sort_Permutation. Qed.

Lemma ranked_sorted (fit : list Fitness.t) :
  StronglySorted by_fitness (ranked fit).
Proof. apply StronglySorted_merge_sort; apply _. Qed.

Lemma ranked_length (fit : list Fitness.t) : length (ranked fit) = length fit.
Proof. rewrite ranked_perm, length_zip_with, length_seq. lia. Qed.

Lemma ranked_elem (fit : list Fitness.t) (i : nat) (f : Fitness.t) :
  (i, f) ∈ ranked fit ↔ fit !! i = Some f.
Proof.
  rewrite ranked_perm, list_elem_of_lookup. setoid_rewrite lookup_zip_with.
  split.
  - intros (j & Hj). destruct (seq 0 (length fit) !! j) as [i'|] eqn:Es; [| done].
    apply lookup_seq in Es as [-> _]. simpl in Hj.
    destruct (fit !! j) eqn:Ef; simpl in Hj; [| done]. by simplify_eq.
  - intros Hf. exists i. rewrite lookup_seq_lt by (by eapply lookup_lt_Some).
    simpl. by rewrite Hf.
Qed.

(** The fitness values [topk_fit] returns depend on the fitness vector
    only. *)
Lemma topk_fit_fit (pop : matrix bool) (fit : list Fitness.t) (k : nat) :
  (topk_fit pop fit k).2 = (take k (ranked fit)).*2.
Proof. done. Qed.

Lemma topk_fit_length (pop : matrix bool) (fit : list Fitness.t) (k : nat) :
  k ≤ length fit →
  length (topk_fit pop fit k).1 = k ∧ length (topk_fit pop fit k).2 = k.
Proof.
  intros Hk. unfold topk_fit. simpl.
  rewrite !length_fmap, length_take, ranked_length. lia.
Qed.

Lemma topk_fit_sorted (pop : matrix bool) (fit : list Fitness.t) (k : nat) :
  StronglySorted Fitness.le (topk_fit pop fit k).2.
Proof.
  rewrite topk_fit_fit. apply (StronglySorted_fmap _ by_fitness).
  - apply by_fitness_le.
  - pose proof (ranked_sorted fit) as Hs.
    rewrite <- (take_drop k (ranked fit)) in Hs.
    by apply StronglySorted_app_1_l in Hs.
Qed.

(** The selected individuals are rows of the population. *)
Lemma topk_fit_rows (pop : matrix bool) (fit : list Fitness.t) (k : nat) (row : list bool) :
  length fit ≤ length pop → row ∈ (topk_fit pop fit k).1 → row ∈ pop.
Proof.
  intros Hlen. unfold topk_fit. simpl.
  intros ([i f] & -> & Hin)%list_elem_of_fmap. simpl.
  apply elem_of_take in Hin as (j & Hj & _).
  apply list_elem_of_lookup_2, ranked_elem, lookup_lt_Some in Hj.
  destruct (lookup_lt_is_Some_2 pop i) as [r Hr]; [lia |].
  rewrite Hr. simpl. by eapply list_elem_of_lookup_2.
Qed.

(** [topk_fit] splits the (individual, fitness) pairs into the selected
    ones and the rest, and nothing in the rest is better than anything
    selected. *)
Lemma topk_fit_selects (pop : matrix bool) (fit : list Fitness.t) (k : nat) :
  length pop = length fit →
  ∃ rest : list (list bool * Fitness.t),
    zip pop fit ≡ₚ zip (topk_fit pop fit k).1 (topk_fit pop fit k).2 ++ rest
    ∧ ∀ x y, x ∈ (topk_fit pop fit k).2 → y ∈ rest → Fitness.le x y.2.
Proof.
  intros Hlen.
  set (g := λ p : nat * Fitness.t, (default [] (pop !! p.1), p.2)).
  assert (Hzip : ∀ l : list (nat * Fitness.t),
    zip ((λ p : nat * Fitness.t, default [] (pop !! p.1)) <$> l) (l.*2) = g <$> l).
  { induction l as [|p l IH]; [done |]. csimpl. by rewrite IH. }
  exists (g <$> drop k (ranked fit)). unfold topk_fit. simpl. split.
  - rewrite Hzip, <- fmap_app, take_drop, ranked_perm.
    replace (g <$> zip (seq 0 (length fit)) fit) with (zip pop fit); [done |].
    apply list_eq. intros i.
    rewrite list_lookup_fmap, !lookup_zip_with.
    destruct (decide (i < length fit)) as [Hi | Hi].
    + rewrite lookup_seq_lt by done. simpl.
      destruct (lookup_lt_is_Some_2 pop i) as [r Hr]; [lia |].
      destruct (lookup_lt_is_Some_2 fit i) as [f Hf]; [lia |].
      rewrite Hr, Hf. simpl. unfold g. simpl. by rewrite Hr.
    + rewrite (lookup_ge_None_2 pop i) by lia. simpl.
      rewrite (lookup_ge_None_2 (seq 0 (length fit)) i); [done |].
      rewrite length_seq. lia.
  - intros x y ([i f] & -> & Hx)%list_elem_of_fmap ([j f'] & -> & Hy)%list_elem_of_fmap.
    simpl. pose proof (ranked_sorted fit) as Hs.
    rewrite <- (take_drop k (ranked fit)) in Hs.
    apply (by_fitness_le (i, f) (j, f')).
    by eapply StronglySorted_app_1_elem_of.
Qed.

(** When at least one individual is selected, every fitness value has a
    selected one at least as good. *)
Lemma topk_fit_dominates (pop : matrix bool) (fit : list Fitness.t) (k : nat)
    (x : Fitness.t) :
  0 < k → x ∈ fit →
  ∃ y, y ∈ (topk_fit pop fit k).2 ∧ Fitness.le y x.
Proof.
  intros Hk Hx. rewrite topk_fit_fit.
  apply list_elem_of_lookup in Hx as [i Hi]. apply ranked_elem in Hi.
  pose proof (ranked_sorted fit) as Hs.
  rewrite <- (take_drop k (ranked fit)) in Hs, Hi.
  apply elem_of_app in Hi as [Hi | Hi].
  - exists x. split; [| apply le_refl].
    apply list_elem_of_fmap. by exists (i, x).
  - destruct (take k (ranked fit)) as [|[j y] best] eqn:Eb.
    + apply (f_equal length) in Eb. rewrite length_take in Eb. simpl in Eb.
      apply list_elem_of_lookup in Hi as [n Hn]. apply lookup_lt_Some in Hn.
      rewrite length_drop in Hn. lia.
    + exists y. split; [simpl; left |].
      apply (by_fitness_le (j, y) (i, x)).
      eapply StronglySorted_app_1_elem_of; [exact Hs | left | done].
Qed.

End SelectionFacts.

(** ** CustomGA *)

Section CustomGAFacts.
Import Jnp Selection CustomGA.
Context {R : Primitives}.
Variable self : CustomGA.

Lemma concatenate_shape {A} (r1 r2 c : nat) (a b : matrix A) :
  shape2 r1 c a → shape2 r2 c b → shape2 (r1 + r2) c (concatenate a b).
Proof.
  intros [Ha Hra] [Hb Hrb]. unfold concatenate. split.
  - rewrite length_app. lia.
  - by apply Forall_app.
Qed.

Lemma empty_shape (r c : nat) : shape2 r c (empty r c).
Proof.
  unfold empty. split; [apply length_replicate |].
  apply Forall_replicate, length_replicate.
Qed.

Lemma ask_returns_offsprings (state : State) :
  (ask self state).1 = offsprings (ask self state).2.
Proof. unfold ask. by destruct (split3 (key state)) as [[k m] x]. Qed.

Lemma ask_shape (state : State) :
  PrimitivesShape R →
  shape2 (pop_size self) (ndim self) (pop state) →
  shape2 (2 * pop_size self) (ndim self) (ask self state).1.
Proof.
  intros HR Hpop. unfold ask. destruct (split3 (key state)) as [[k m] x]. cbn [fst].
  replace (2 * pop_size self) with (pop_size self + pop_size self) by lia.
  apply concatenate_shape; [by apply bitflip_shape | by apply one_point_shape].
Qed.

Lemma tell_pop_fit (state : State) (fitness : list Fitness.t) :
  (pop (tell self state fitness), fit (tell self state fitness))
  = topk_fit (concatenate (pop state) (offsprings state))
             (concatenate (fit state) fitness) (pop_size self).
Proof. unfold tell. by destruct (topk_fit _ _ _). Qed.

Lemma ask_keeps_pop_fit (state : State) :
  pop (ask self state).2 = pop state ∧ fit (ask self state).2 = fit state.
Proof. unfold ask. by destruct (split3 (key state)) as [[k m] x]. Qed.

Lemma tell_keeps_offsprings (state : State) (fitness : list Fitness.t) :
  offsprings (tell self state fitness) = offsprings state.
Proof. unfold tell. by destruct (topk_fit _ _ _). Qed.

(** C6.  [ask] replaces [offsprings] and [key] and leaves [pop] and [fit]
    as they are; [tell] replaces [pop] and [fit] and leaves [offsprings]
    and [key] as they are. *)
Theorem ask_tell_frame (state : State) (fitness : list Fitness.t) :
  (pop (ask self state).2 = pop state ∧ fit (ask self state).2 = fit state)
  ∧ (offsprings (tell self state fitness) = offsprings state
     ∧ key (tell self state fitness) = key state).
Proof.
  split.
  - unfold ask. by destruct (split3 (key state)) as [[k m] x].
  - unfold tell. by destruct (topk_fit _ _ _).
Qed.

(** C3.  On a state whose arrays have the shapes of the algorithm, [ask]
    returns the bitflip mutants of the population followed by its one-point
    crossover children, 2 * pop_size rows in all, with the state updated in
    [offsprings] and [key]; given one fitness value per offspring, [tell]
    returns the state whose [pop] and [fit] are the pop_size best entries of
    the old population and the offsprings taken together: pop_size pairs,
    in ascending order of fitness, drawn from the merged pairs, none of the
    pairs left out being better than a selected one. *)
Theorem ask_tell_contract (state : State) (fitness : list Fitness.t)
    (HR : PrimitivesShape R)
    (Hstate : well_shaped self state)
    (Hfitness : length fitness = 2 * pop_size self) :
  (let '(key', mut_key, x_key) := split3 (key state) in
   (ask self state).1
     = bitflip mut_key (pop state) (flip_prob self) ++ one_point x_key (pop state)
   ∧ shape2 (2 * pop_size self) (ndim self) (ask self state).1
   ∧ (ask self state).2 = update state None (Some (ask self state).1) None (Some key'))
  ∧ (let merged_pop := pop state ++ offsprings state in
     let merged_fit := fit state ++ fitness in
     let new := tell self state fitness in
     (pop new, fit new) = topk_fit merged_pop merged_fit (pop_size self)
     ∧ length (pop new) = pop_size self
     ∧ length (fit new) = pop_size self
     ∧ StronglySorted Fitness.le (fit new)
     ∧ ∃ rest : list (list bool * Fitness.t),
         zip merged_pop merged_fit ≡ₚ zip (pop new) (fit new) ++ rest
         ∧ ∀ x y, x ∈ fit new → y ∈ rest → Fitness.le x y.2).
Proof.
  destruct Hstate as ([Hpop Hrows] & Hfit & [Hoff Horows]). split.
  - pose proof (ask_shape state HR (conj Hpop Hrows)) as Hask.
    unfold ask in *. destruct (split3 (key state)) as [[k m] x]. by simpl in *.
  - cbv zeta. pose proof (tell_pop_fit state fitness) as Ht.
    unfold concatenate in Ht.
    set (merged_pop := pop state ++ offsprings state) in *.
    set (merged_fit := fit state ++ fitness) in *.
    assert (Hlen : length merged_pop = length merged_fit).
    { unfold merged_pop, merged_fit. rewrite !length_app. lia. }
    assert (Hk : pop_size self ≤ length merged_fit).
    { unfold merged_fit. rewrite length_app. lia. }
    destruct (topk_fit_length merged_pop merged_fit _ Hk) as [Hl1 Hl2].
    pose proof (topk_fit_sorted merged_pop merged_fit (pop_size self)) as Hs.
    destruct (topk_fit_selects merged_pop merged_fit (pop_size self) Hlen)
      as (rest & Hperm & Hbest).
    rewrite <- Ht in Hl1, Hl2, Hs, Hperm, Hbest. simpl in *.
    split; [done |]. split; [done |]. split; [done |]. split; [done |].
    by exists rest.
Qed.

Lemma setup_well_shaped (k : prng_key) :
  PrimitivesShape R → well_shaped self (setup self k).
Proof.
  intros HR. unfold setup. destruct (split k) as [k' subkey].
  split; [| split]; cbn [pop fit offsprings].
  - destruct (uniform_shape subkey (pop_size self) (ndim self)) as [Hr Hc].
    split; [by rewrite length_fmap |].
    apply Forall_fmap. eapply Forall_impl; [exact Hc |].
    intros row Hrow. simpl. by rewrite length_fmap.
  - apply length_replicate.
  - replace (2 * pop_size self) with (pop_size self * 2) by lia.
    apply empty_shape.
Qed.

Lemma ask_well_shaped (state : State) :
  PrimitivesShape R → well_shaped self state → well_shaped self (ask self state).2.
Proof.
  intros HR (Hpop & Hfit & Hoff).
  destruct (ask_keeps_pop_fit state) as [Hp Hf].
  split; [| split].
  - by rewrite Hp.
  - by rewrite Hf.
  - rewrite <- ask_returns_offsprings. by apply ask_shape.
Qed.

Lemma tell_well_shaped (state : State) (fitness : list Fitness.t) :
  well_shaped self state → length fitness = 2 * pop_size self →
  well_shaped self (tell self state fitness).
Proof.
  intros ([Hpop Hrows] & Hfit & [Hoff Horows]) Hlen.
  pose proof (tell_pop_fit state fitness) as Ht. unfold concatenate in Ht.
  assert (Hk : pop_size self ≤ length (fit state ++ fitness)).
  { rewrite length_app. lia. }
  destruct (topk_fit_length (pop state ++ offsprings state) _ _ Hk) as [Hl1 Hl2].
  pose proof (tell_keeps_offsprings state fitness) as Ho.
  split; [| split].
  - split; [by rewrite <- Ht in Hl1 |].
    apply Forall_forall. intros row Hrow.
    replace (pop (tell self state fitness)) with
      (topk_fit (pop state ++ offsprings state) (fit state ++ fitness)
                (pop_size self)).1 in Hrow by (by rewrite <- Ht).
    apply topk_fit_rows in Hrow; [| rewrite !length_app; lia].
    apply elem_of_app in Hrow as [Hrow | Hrow].
    + by eapply Forall_forall in Hrows.
    + by eapply Forall_forall in Horows.
  - by rewrite <- Ht in Hl2.
  - by rewrite Ho.
Qed.

(** C7.  Every state reachable from [setup] by [ask] and [tell] (with one
    fitness value per offspring) has [pop] of shape (pop_size, ndim), [fit]
    of length pop_size and [offsprings] of shape (2 * pop_size, ndim); the
    population has as many individuals after a further [ask] or [tell] as it
    had before. *)
Theorem reachable_well_shaped (state : State) (fitness : list Fitness.t)
    (HR : PrimitivesShape R) (Hreach : reachable self state)
    (Hfitness : length fitness = 2 * pop_size self) :
  (shape2 (pop_size self) (ndim self) (pop state)
   ∧ length (fit state) = pop_size self
   ∧ shape2 (2 * pop_size self) (ndim self) (offsprings state))
  ∧ length (pop (ask self state).2) = length (pop state)
  ∧ length (pop (tell self state fitness)) = length (pop state).
Proof.
  assert (Hshape : well_shaped self state).
  { clear fitness Hfitness. induction Hreach as [k | s _ IH | s f _ IH Hf].
    - by apply setup_well_shaped.
    - by apply ask_well_shaped.
    - by apply tell_well_shaped. }
  split; [exact Hshape |].
  destruct (ask_well_shaped state HR Hshape) as ([Hask _] & _).
  destruct (tell_well_shaped state fitness Hshape Hfitness) as ([Htell _] & _).
  destruct Hshape as ([Hpop _] & _). rewrite Hask, Htell, Hpop. done.
Qed.

End CustomGAFacts.

(** ** Workflow and monitor *)

Section WorkflowFacts.
Import Jnp CustomGA Workflow.
Context {R : Primitives} {A P Pop : Type}.
Context {alg : Algorithm A Pop} {prob : Problem P Pop}.
Variable opt_direction : direction.

(** The monitor observes: a step records one fitness vector with it, and
    the next state does not depend on what the monitor holds. *)
Lemma step_records (state : WorkflowState A P) :
  ∃ state' fitness, ∀ m, step opt_direction (state, m) = (state', record_fit m fitness).
Proof.
  unfold step. destruct (alg_ask (alg_state state)) as [pop a].
  destruct (prob_evaluate (prob_state state) pop) as [f p]. eauto.
Qed.

Lemma step_no_worse (state : WorkflowState A P) (m : Monitor) :
  Fitness.no_worse (get_best_fitness (step opt_direction (state, m)).2)
                   (get_best_fitness m).
Proof.
  destruct (step_records state) as (state' & f & ->). simpl.
  unfold get_best_fitness, record_fit. simpl. rewrite concat_app.
  apply minimum_app_no_worse.
Qed.

Variable self : CustomGA.

(** C1.  A step never worsens the best fitness the monitor reports, so
    the best fitness after n + 1 steps of a run is at least as good as
    after n; and for CustomGA the best fitness in the [fit] field of a
    state (whose [fit] has pop_size entries) never worsens across [tell],
    whatever the fitness told. *)
Theorem best_fitness_never_worsens
    (state : WorkflowState A P) (m : Monitor)
    (ga_state : State) (fitness : list Fitness.t)
    (Hfit : length (fit ga_state) = pop_size self) :
  Fitness.no_worse (get_best_fitness (step opt_direction (state, m)).2)
                   (get_best_fitness m)
  ∧ (∀ key n,
       Fitness.no_worse (get_best_fitness (run opt_direction key (S n) m).2)
                        (get_best_fitness (run opt_direction key n m).2))
  ∧ Fitness.no_worse (Fitness.minimum (fit (tell self ga_state fitness)))
                     (Fitness.minimum (fit ga_state)).
Proof.
  split; [apply step_no_worse |]. split.
  - intros key n. unfold run. simpl.
    destruct (Nat.iter n (step opt_direction) (init key, m)) as [st m'].
    apply step_no_worse.
  - apply minimum_no_worse. intros x Hx.
    pose proof (tell_pop_fit self ga_state fitness) as Ht.
    apply (f_equal snd) in Ht. cbn [snd] in Ht. rewrite Ht.
    apply topk_fit_dominates.
    + rewrite <- Hfit. apply list_elem_of_lookup in Hx as [i Hi].
      apply lookup_lt_Some in Hi. lia.
    + unfold concatenate. apply elem_of_app. by left.
Qed.

End WorkflowFacts.

Section GAWorkflowFacts.
Import Jnp CustomGA Workflow.
Context {R : Primitives}.
Variable self : CustomGA.
Variable opt_direction : direction.






End GAWorkflowFacts.

(** ** The reference instance *)

Section ReferenceFacts.
Import Jnp CustomGA Workflow Reference.

Lemma ref_uniform_shape (k r c : nat) : shape2 r c (ref_uniform k r c).
Proof.
  unfold ref_uniform. split; [by rewrite length_fmap, length_seq |].
  apply Forall_fmap, Forall_forall. intros i _. simpl.
  by rewrite length_fmap, length_seq.
Qed.

Lemma row_length {A} (x : matrix A) (c i : nat) (row : list A) :
  Forall (λ row, length row = c) x → x !! i = Some row → length row = c.
Proof. intros Hc Hi. rewrite Forall_lookup in Hc. by apply (Hc i). Qed.

Lemma ref_bitflip_shape (k : nat) (x : matrix bool) (p : Q) (r c : nat) :
  shape2 r c x → shape2 r c (ref_bitflip k x p).
Proof.
  intros [Hr Hc]. unfold ref_bitflip. split; [by rewrite length_imap |].
  apply Forall_lookup. intros i row. rewrite list_lookup_imap.
  destruct (x !! i) as [row'|] eqn:E; [| done]. intros [= <-].
  rewrite length_imap. by eapply row_length.
Qed.

Lemma ref_one_point_shape (k : nat) (x : matrix bool) (r c : nat) :
  shape2 r c x → shape2 r c (ref_one_point k x).
Proof.
  intros [Hr Hc]. unfold ref_one_point. split; [by rewrite length_imap |].
  apply Forall_lookup. intros i row. rewrite list_lookup_imap.
  destruct (x !! i) as [row'|] eqn:E; [| done]. intros [= <-].
  assert (Hrow : length row' = c) by (by eapply row_length).
  assert (Hmate : length (default row' (x !! (S i mod length x))) = c).
  { destruct (x !! (S i mod length x)) as [mate|] eqn:Em; [| done].
    simpl. by eapply row_length. }
  pose proof (Nat.mod_upper_bound k (S (length row'))) as Hpoint.
  rewrite length_app, length_take, length_drop, Hmate, Hrow in *. lia.
Qed.

#[local] Instance ref_primitives_shape : PrimitivesShape ref_primitives.
Proof.
  split.
  - apply ref_uniform_shape.
  - apply ref_bitflip_shape.
  - apply ref_one_point_shape.
Qed.

End ReferenceFacts.

(** ** The theorems at concrete inputs *)

Section Instances.
Import Jnp CustomGA Workflow Reference.

Lemma pong_frame_shape : shape3 210 160 3 pong_frame.
Proof.
  unfold pong_frame. split; [by rewrite length_fmap, length_seq |].
  apply Forall_fmap, Forall_forall. intros i _. unfold compose. cbn beta.
  split; [by rewrite length_fmap, length_seq |].
  apply Forall_fmap, Forall_forall. intros j _. unfold compose. cbn beta.
  by destruct ((j =? 16) && (100 <=? i) && (i <? 116)).
Defined.

Example pong_frame_paddle :
  Pong.entry (Pong.pong_preprocess pong_frame) 40 8 = Some 1%Z
  ∧ Pong.entry (Pong.pong_preprocess pong_frame) 20 8 = Some 0%Z.
Proof. by vm_compute. Qed.

Lemma pong_preprocess_witness :
  shape3 210 160 3 pong_frame
  ∧ shape2 80 80 (Pong.pong_preprocess pong_frame).
Proof.
  split; [exact pong_frame_shape |].
  apply (pong_preprocess_spec pong_frame pong_frame_shape).
Defined.

Example onemax_01011 : (OneMax.evaluate tt [[false; true; false; true; true]]).1 = [3%Z].
Proof. reflexivity. Qed.

Lemma small_state_well_shaped : well_shaped small_ga small_state.
Proof. vm_compute. repeat constructor. Defined.

Lemma small_fitness_length : length small_fitness = 2 * pop_size small_ga.
Proof. reflexivity. Defined.

Example small_tell :
  fit (tell small_ga (ask small_ga small_state).2 small_fitness)
  = Fitness.Fin <$> [-3; -3; -3; -2]%Z.
Proof. by vm_compute. Qed.

Lemma ask_tell_contract_witness :
  well_shaped small_ga small_state
  ∧ length small_fitness = 2 * pop_size small_ga
  ∧ length (ask small_ga small_state).1 = 8
  ∧ length (pop (tell small_ga small_state small_fitness)) = 4.
Proof.
  pose proof (ask_tell_contract small_ga small_state small_fitness
                ref_primitives_shape small_state_well_shaped
                small_fitness_length) as [Hask Htell].
  split; [exact small_state_well_shaped |].
  split; [exact small_fitness_length |]. split.
  - reflexivity.
  - cbv zeta in Htell. apply Htell.
Defined.

Lemma reachable_well_shaped_witness :
  reachable small_ga (tell small_ga (ask small_ga small_state).2 small_fitness)
  ∧ length small_fitness = 2 * pop_size small_ga
  ∧ length (pop (tell small_ga (ask small_ga small_state).2 small_fitness)) = 4.
Proof.
  assert (Hreach : reachable small_ga
                     (tell small_ga (ask small_ga small_state).2 small_fitness)).
  { apply reach_tell; [apply reach_ask, reach_setup | reflexivity]. }
  split; [exact Hreach |]. split; [reflexivity |].
  apply (reachable_well_shaped small_ga _ small_fitness ref_primitives_shape
           Hreach eq_refl).
Defined.

Lemma best_fitness_never_worsens_witness :
  length (fit small_state) = pop_size small_ga
  ∧ Fitness.no_worse
      (Fitness.minimum (fit (tell small_ga small_state small_fitness)))
      (Fitness.minimum (fit small_state)).
Proof.
  split; [reflexivity |].
  apply (best_fitness_never_worsens
           (R := ref_primitives) (alg := CustomGA_Algorithm small_ga) (prob := OneMax_Problem)
           Maximize small_ga
           (init (R := ref_primitives) (alg := CustomGA_Algorithm small_ga) (prob := OneMax_Problem) 42)
           new_monitor small_state small_fitness eq_refl).
Defined.

Example small_run_best :
  get_best_fitness (run (R := ref_primitives) (alg := CustomGA_Algorithm small_ga)
                        (prob := OneMax_Problem) Maximize 42 3 new_monitor).2
  = Some (Fitness.Fin (-4)).
Proof. by vm_compute. Qed.


End Instances.

(** * Further properties of the notebooks' code *)

(** ** OneMax: bounds, optimum and neighbours *)

Section OneMaxMore.
Import Jnp OneMax.

Lemma ones_cons (b : bool) (row : list bool) :
  ones (b :: row) = if b then S (ones row) else ones row.
Proof.
  unfold ones. destruct b.
  - by rewrite filter_cons_True.
  - by rewrite filter_cons_False.
Qed.

Lemma ones_le_length (row : list bool) : ones row ≤ length row.
Proof. apply length_filter. Qed.

Lemma ones_all (row : list bool) :
  ones row = length row ↔ row = replicate (length row) true.
Proof.
  induction row as [|b row IH]; [done |].
  rewrite ones_cons. pose proof (ones_le_length row). simpl. destruct b.
  - split.
    + intros [= H']. f_equal. by apply IH.
    + intros [= H']. f_equal. by apply IH.
  - split; [lia | done].
Qed.

Lemma ones_none (row : list bool) :
  ones row = 0 ↔ row = replicate (length row) false.
Proof.
  induction row as [|b row IH]; [done |].
  rewrite ones_cons. simpl. destruct b.
  - split; done.
  - split.
    + intros H'. f_equal. by apply IH.
    + intros [= H']. by apply IH.
Qed.

Lemma evaluate_lookup {S : Type} (state : S) (bitstrings : matrix bool) (i : nat) :
  (evaluate state bitstrings).1 !! i
  = (λ row, Z.of_nat (ones row)) <$> bitstrings !! i.
Proof.
  unfold evaluate, sum_axis1. simpl. rewrite list_lookup_fmap.
  destruct (bitstrings !! i) as [row|]; simpl; [| done].
  by rewrite sum_row_ones.
Qed.

Lemma sum_row_flip (row : list bool) (j : nat) (b : bool) :
  row !! j = Some b →
  sum_row (<[j := negb b]> row) = (sum_row row + (if b then -1 else 1))%Z.
Proof.
  revert j. induction row as [|c row IH]; intros [|j] Hj; try done.
  - simpl in Hj. injection Hj as ->. simpl. destruct b; simpl; lia.
  - simpl in Hj. change (sum_row (c :: <[j := negb b]> row)
                         = (sum_row (c :: row) + (if b then -1 else 1))%Z).
    change (sum_row (c :: ?l)) with (Z.b2z c + sum_row l)%Z.
    rewrite (IH j Hj).
    change (sum_row (c :: row)) with (Z.b2z c + sum_row row)%Z. lia.
Qed.

(** X1.  On bitstrings of [num_bits] bits, every fitness value
    [OneMax.evaluate] returns lies between 0 and [num_bits]. *)
Theorem evaluate_bounds {S : Type} (state : S) (bitstrings : matrix bool)
    (num_bits i : nat) (x : Z)
    (Hshape : Forall (λ row, length row = num_bits) bitstrings)
    (Hx : (evaluate state bitstrings).1 !! i = Some x) :
  (0 ≤ x ≤ Z.of_nat num_bits)%Z.
Proof.
  rewrite evaluate_lookup in Hx. apply fmap_Some in Hx as (row & Hrow & ->).
  rewrite Forall_lookup in Hshape. specialize (Hshape i row Hrow). simpl in Hshape.
  pose proof (ones_le_length row). lia.
Qed.

(** X2.  The fitness of a bitstring is its length exactly when all its bits
    are set, and 0 exactly when none is: the all-ones string is the one
    optimum of one-max, the all-zeros string the one worst point. *)
Theorem evaluate_optimum {S : Type} (state : S) (bitstrings : matrix bool)
    (i : nat) (row : list bool)
    (Hrow : bitstrings !! i = Some row) :
  ((evaluate state bitstrings).1 !! i = Some (Z.of_nat (length row))
   ↔ row = replicate (length row) true)
  ∧ ((evaluate state bitstrings).1 !! i = Some 0%Z
     ↔ row = replicate (length row) false).
Proof.
  rewrite evaluate_lookup, Hrow. simpl. split.
  - rewrite <- ones_all. split; [intros [= H']; lia | by intros ->].
  - rewrite <- ones_none. split; [intros [= H']; lia | by intros ->].
Qed.

(** X3.  Flipping one bit of one bitstring changes the fitness of that
    bitstring by exactly one (down when the bit was set, up when it was
    not) and no other fitness value. *)
Theorem evaluate_flip {S : Type} (state : S) (bitstrings : matrix bool)
    (i j : nat) (row : list bool) (b : bool)
    (Hrow : bitstrings !! i = Some row) (Hbit : row !! j = Some b) :
  (evaluate state (<[i := <[j := negb b]> row]> bitstrings)).1
  = <[i := (Z.of_nat (ones row) + (if b then -1 else 1))%Z]>
      (evaluate state bitstrings).1.
Proof.
  unfold evaluate, sum_axis1. simpl.
  by rewrite list_fmap_insert, (sum_row_flip row j b Hbit), sum_row_ones.
Qed.

End OneMaxMore.

(** ** Pong: other shapes, what the output depends on, the flattened input *)

Section PongMore.
Import Jnp Pong PongPolicy.

Lemma slice_shape_any (img : image) (lo hi r c d : nat) :
  shape3 r c d img → shape3 (Nat.min hi r - lo) c d (slice lo hi img).
Proof.
  intros [Hr Hc]. unfold slice. split.
  - rewrite length_take, length_drop. lia.
  - by apply Forall_take, Forall_drop.
Qed.

(** The two [jnp.where] passes are one elementwise map. *)
Lemma pong_preprocess_binarize (img : image) :
  pong_preprocess img
  = (λ row : list Z, binarize <$> row) <$> downsample (slice 35 195 img).
Proof.
  unfold pong_preprocess, where_. rewrite <- list_fmap_compose.
  apply list_fmap_ext. intros _ row _. unfold compose.
  rewrite <- list_fmap_compose. apply list_fmap_ext. intros _ x _.
  apply binarize_where.
Qed.

Lemma pong_preprocess_shape (img : image) (h w c : nat) :
  shape3 h w c img →
  shape2 (Nat.div2 (S (Nat.min 195 h - 35))) (Nat.div2 (S w)) (pong_preprocess img).
Proof.
  intros Hshape. unfold pong_preprocess. do 2 apply where_shape.
  eapply downsample_shape, slice_shape_any, Hshape.
Qed.

(** With at least one channel, the value sampled at a pixel is its red
    channel. *)
Lemma sampled_red (img : image) (h w c a b : nat) :
  shape3 h w c img → 0 < c →
  channel0 <$> (row ← img !! a; row !! b) = red img a b.
Proof.
  intros [_ Hrows] Hc. unfold red.
  destruct (img !! a) as [row|] eqn:Ea; [| done]. cbn [mbind option_bind].
  destruct (row !! b) as [px|] eqn:Eb; [| done]. cbn [mbind option_bind fmap option_fmap option_map].
  rewrite Forall_lookup in Hrows. destruct (Hrows _ _ Ea) as [_ Hpx].
  rewrite Forall_lookup in Hpx. specialize (Hpx _ _ Eb). simpl in Hpx.
  destruct px as [|r px]; [simpl in Hpx; lia | done].
Qed.

Lemma pong_preprocess_entry (img : image) (h w c i j : nat) :
  shape3 h w c img → 0 < c → i < 80 →
  entry (pong_preprocess img) i j = binarize <$> red img (35 + 2 * i) (2 * j).
Proof.
  intros Hshape Hc Hi. rewrite <- (sampled_red img h w c) by done.
  unfold pong_preprocess.
  rewrite !where_entry, downsample_entry, slice_lookup by lia.
  rewrite <- option_fmap_compose. apply option_fmap_ext. intros r. simpl.
  apply binarize_where.
Qed.

Lemma div2_succ_bound (n i : nat) : i < Nat.div2 (S n) ↔ 2 * i < n.
Proof.
  rewrite Nat.div2_div. pose proof (Nat.div_mod_eq (S n) 2) as Hdiv.
  pose proof (Nat.mod_upper_bound (S n) 2). lia.
Qed.

(** Matrices of one shape with the same entries are equal. *)
Lemma matrix_ext (m1 m2 : matrix Z) (r k : nat) :
  shape2 r k m1 → shape2 r k m2 →
  (∀ i j, i < r → j < k → entry m1 i j = entry m2 i j) → m1 = m2.
Proof.
  intros [Hr1 Hk1] [Hr2 Hk2] Hentry. apply list_eq. intros i.
  destruct (decide (i < r)) as [Hi | Hi].
  - destruct (lookup_lt_is_Some_2 m1 i) as [row1 E1]; [lia |].
    destruct (lookup_lt_is_Some_2 m2 i) as [row2 E2]; [lia |].
    rewrite E1, E2. f_equal. apply list_eq. intros j.
    pose proof (row_length m1 k i row1 Hk1 E1) as L1.
    pose proof (row_length m2 k i row2 Hk2 E2) as L2.
    destruct (decide (j < k)) as [Hj | Hj].
    + specialize (Hentry i j Hi Hj). unfold entry in Hentry.
      by rewrite E1, E2 in Hentry.
    + by rewrite !lookup_ge_None_2 by lia.
  - by rewrite !lookup_ge_None_2 by lia.
Qed.

Lemma concat_length {A} (m : matrix A) (r c : nat) :
  shape2 r c m → length (concat m) = r * c.
Proof.
  intros [<- Hc]. induction Hc as [|row m Hrow _ IH]; [done |].
  simpl. rewrite length_app, IH, Hrow. lia.
Qed.

Lemma concat_lookup {A} (m : matrix A) (c i j : nat) :
  Forall (λ row, length row = c) m → j < c →
  concat m !! (c * i + j) = (row ← m !! i; row !! j).
Proof.
  intros Hc Hj. revert i. induction Hc as [|row m Hrow _ IH]; intros i.
  - done.
  - destruct i as [|i]; simpl.
    + rewrite Nat.mul_0_r. simpl. apply lookup_app_l. lia.
    + rewrite lookup_app_r by lia.
      replace (c * S i + j - length row) with (c * i + j) by lia. apply IH.
Qed.

(** X4.  [pong_preprocess] on an image of any shape (h, w, c) with at
    least one channel: the output has a row for every second line of the
    crop, which ends at line 195 or at the last line of the image, and a
    column for every second pixel of a line; its entries are computed from
    the red channel as on a full frame.  An image of 35 lines or fewer
    gives the empty array. *)
Theorem pong_preprocess_any_shape (img : image) (h w c : nat)
    (Hshape : shape3 h w c img) (Hc : 0 < c) :
  shape2 (Nat.div2 (S (Nat.min 195 h - 35))) (Nat.div2 (S w)) (pong_preprocess img)
  ∧ (∀ i j, i < Nat.div2 (S (Nat.min 195 h - 35)) → j < Nat.div2 (S w) →
       ∃ r, red img (35 + 2 * i) (2 * j) = Some r
            ∧ entry (pong_preprocess img) i j = Some (binarize r))
  ∧ (h ≤ 35 → pong_preprocess img = []).
Proof.
  pose proof (pong_preprocess_shape img h w c Hshape) as Hout.
  split; [done |]. split.
  - intros i j Hi%div2_succ_bound Hj%div2_succ_bound.
    rewrite (pong_preprocess_entry img h w c) by (done || lia).
    destruct Hshape as [Hrows Hpx].
    destruct (lookup_lt_is_Some_2 img (35 + 2 * i)) as [row Hrow]; [lia |].
    rewrite Forall_lookup in Hpx. destruct (Hpx _ _ Hrow) as [Hcols Hch].
    destruct (lookup_lt_is_Some_2 row (2 * j)) as [px Hpix]; [lia |].
    rewrite Forall_lookup in Hch. specialize (Hch _ _ Hpix). simpl in Hch.
    destruct px as [|r px]; [simpl in Hch; lia |]. exists r.
    assert (Hred : red img (35 + 2 * i) (2 * j) = Some r).
    { unfold red. rewrite Hrow. cbn [mbind option_bind]. by rewrite Hpix. }
    by rewrite Hred.
  - intros Hh. destruct Hout as [Hlen _].
    replace (Nat.min 195 h - 35) with 0 in Hlen by lia.
    by apply nil_length_inv.
Qed.

(** X5.  The output depends on the red channel of the sampled pixels only
    (lines 35, 37, ... of the crop, every second pixel of each): two images
    of one shape that agree there give the same output, whatever their
    other channels, their other pixels and the lines outside the crop
    hold. *)
Theorem pong_preprocess_red_only (img1 img2 : image) (h w c : nat)
    (Hshape1 : shape3 h w c img1) (Hshape2 : shape3 h w c img2) (Hc : 0 < c)
    (Hred : ∀ i j, i < 80 →
              red img1 (35 + 2 * i) (2 * j) = red img2 (35 + 2 * i) (2 * j)) :
  pong_preprocess img1 = pong_preprocess img2.
Proof.
  eapply matrix_ext.
  - by apply (pong_preprocess_shape img1 h w c).
  - by apply (pong_preprocess_shape img2 h w c).
  - intros i j Hi%div2_succ_bound _.
    rewrite (pong_preprocess_entry img1 h w c), (pong_preprocess_entry img2 h w c)
      by (done || lia).
    rewrite Hred by lia. done.
Qed.

(** X6.  On a frame of shape (210, 160, 3) the vector [PongPolicy] hands to
    its first dense layer has 6400 entries, each 0 or 1, and entry
    80 * i + j is entry (i, j) of the preprocessed image. *)
Theorem features_spec (img : image) (Hshape : shape3 210 160 3 img) :
  length (features img) = 80 * 80
  ∧ (∀ i j, i < 80 → j < 80 →
       features img !! (80 * i + j) = entry (pong_preprocess img) i j)
  ∧ Forall (λ x, x = 0%Z ∨ x = 1%Z) (features img).
Proof.
  pose proof (pong_preprocess_shape img 210 160 3 Hshape) as Hout.
  change (Nat.div2 (S (Nat.min 195 210 - 35))) with 80 in Hout.
  change (Nat.div2 (S 160)) with 80 in Hout.
  unfold features, reshape_flat. split; [| split].
  - by rewrite (concat_length _ 80 80).
  - intros i j _ Hj. destruct Hout as [_ Hcols]. by apply concat_lookup.
  - rewrite pong_preprocess_binarize. apply Forall_forall. intros x Hx.
    apply list_elem_of_In, in_concat in Hx as (row & Hrow & Hx).
    apply list_elem_of_In, list_elem_of_fmap in Hrow as (row' & -> & _).
    apply list_elem_of_In, list_elem_of_fmap in Hx as (r & -> & _).
    apply binarize_bit.
Qed.

End PongMore.

(** ** Selection: counting arguments *)

Section SelectionMore.
Import Jnp Selection.

Lemma filter_all {A} (P : A → Prop) `{∀ x, Decision (P x)} (l : list A) :
  Forall P l → filter P l = l.
Proof.
  induction 1 as [|x l Hx _ IH]; [done |]. by rewrite filter_cons_True, IH.
Qed.

Lemma filter_none {A} (P : A → Prop) `{∀ x, Decision (P x)} (l : list A) :
  Forall (λ x, ¬ P x) l → filter P l = [].
Proof.
  induction 1 as [|x l Hx _ IH]; [done |]. by rewrite filter_cons_False.
Qed.

Lemma filter_full_length {A} (P : A → Prop) `{∀ x, Decision (P x)} (l : list A) :
  length l ≤ length (filter P l) → Forall P l.
Proof.
  intros Hlen. apply Forall_forall. intros x Hx.
  destruct (decide (P x)) as [HP | HP]; [done |].
  pose proof (length_filter_lt P l x Hx HP). lia.
Qed.

Lemma ranked_values (fit : list Fitness.t) : (ranked fit).*2 ≡ₚ fit.
Proof.
  rewrite ranked_perm. rewrite snd_zip; [done |]. rewrite length_seq. lia.
Qed.

(** The ranking cut at [k]: the values kept and the values left out make
    up the vector, and nothing left out is better than anything kept. *)
Lemma ranked_split (fit : list Fitness.t) (k : nat) :
  (take k (ranked fit)).*2 ++ (drop k (ranked fit)).*2 ≡ₚ fit
  ∧ ∀ a b, a ∈ (take k (ranked fit)).*2 → b ∈ (drop k (ranked fit)).*2 →
           Fitness.le a b.
Proof.
  split.
  - rewrite <- fmap_app, take_drop. apply ranked_values.
  - intros a b ([i a'] & -> & Ha)%list_elem_of_fmap ([j b'] & -> & Hb)%list_elem_of_fmap.
    simpl. pose proof (ranked_sorted fit) as Hs.
    rewrite <- (take_drop k (ranked fit)) in Hs.
    apply (by_fitness_le (i, a') (j, b')).
    by eapply StronglySorted_app_1_elem_of.
Qed.

Lemma le_PInf (b : Fitness.t) : Fitness.le Fitness.PInf b → b = Fitness.PInf.
Proof. by destruct b. Qed.

(** When the vector holds at least [k] values other than the placeholder,
    none of the [k] values kept is the placeholder. *)
Lemma ranked_prefix_finite (fit : list Fitness.t) (k : nat) :
  k ≤ length (filter (λ x, x ≠ Fitness.PInf) fit) →
  Forall (λ x, x ≠ Fitness.PInf) (take k (ranked fit)).*2.
Proof.
  intros Hk. destruct (ranked_split fit k) as [Hperm Hdom].
  set (kept := (take k (ranked fit)).*2) in *.
  set (rest := (drop k (ranked fit)).*2) in *.
  apply Forall_forall. intros a Ha ->.
  assert (Hrest : filter (λ x, x ≠ Fitness.PInf) rest = []).
  { apply filter_none, Forall_forall. intros b Hb Hne.
    by apply Hne, le_PInf, Hdom. }
  assert (Hcount : length (filter (λ x, x ≠ Fitness.PInf) kept)
                   = length (filter (λ x, x ≠ Fitness.PInf) fit)).
  { rewrite <- Hperm, filter_app, Hrest, app_nil_r. done. }
  pose proof (length_filter_lt (λ x, x ≠ Fitness.PInf) kept Fitness.PInf Ha) as Hlt.
  assert (length kept ≤ k).
  { unfold kept. rewrite length_fmap, length_take. lia. }
  assert (¬ Fitness.PInf ≠ Fitness.PInf) as Hn by (intros Hn; by apply Hn).
  specialize (Hlt Hn). lia.
Qed.

(** When [k] is at most the number of old values, every value kept from
    old and new values together is at least as good as some old value. *)
Lemma ranked_prefix_below (old new : list Fitness.t) (k : nat) (a : Fitness.t) :
  k ≤ length old →
  a ∈ (take k (ranked (old ++ new))).*2 →
  ∃ o, o ∈ old ∧ Fitness.le a o.
Proof.
  intros Hk Ha. destruct (ranked_split (old ++ new) k) as [Hperm Hdom].
  set (kept := (take k (ranked (old ++ new))).*2) in *.
  set (rest := (drop k (ranked (old ++ new))).*2) in *.
  destruct (decide (Exists (λ b, b ∈ old) rest)) as [Hex | Hex].
  - apply Exists_exists in Hex as (b & Hb & Hold). exists b. split; [done |].
    by apply Hdom.
  - exists a. split; [| apply le_refl].
    apply not_Exists_Forall in Hex; [| intros b; apply _].
    assert (Hrest : filter (λ b, b ∈ old) rest = []) by (by apply filter_none).
    assert (Hcount : length (filter (λ b, b ∈ old) kept)
                     = length (filter (λ b, b ∈ old) (old ++ new))).
    { rewrite <- Hperm, filter_app, Hrest, app_nil_r. done. }
    rewrite filter_app, length_app in Hcount.
    rewrite (filter_all (λ b, b ∈ old) old) in Hcount
      by (by apply Forall_forall).
    assert (Hlen : length kept ≤ k).
    { unfold kept. rewrite length_fmap, length_take. lia. }
    assert (Hall : Forall (λ b, b ∈ old) kept) by (apply (filter_full_length (λ b, b ∈ old)); lia).
    rewrite Forall_forall in Hall. by apply Hall.
Qed.

(** Pairs kept from old and new pairs together, as many as there are old
    ones, when every new pair is worse than every old one: the old pairs
    are kept, all of them and nothing else. *)
Lemma selection_keeps_old {A} (kept rest old new : list (A * Fitness.t)) :
  kept ++ rest ≡ₚ old ++ new →
  length kept = length old →
  (∀ a b, a ∈ kept → b ∈ rest → Fitness.le a.2 b.2) →
  (∀ o n, o ∈ old → n ∈ new → ¬ Fitness.le n.2 o.2) →
  kept ≡ₚ old.
Proof.
  intros Hperm Hlen Hdom Hworse.
  set (P := λ p : A * Fitness.t, Exists (λ o : A * Fitness.t, Fitness.le p.2 o.2) old).
  assert (Hold : filter P old = old).
  { apply filter_all, Forall_forall. intros o Ho.
    apply Exists_exists. exists o. split; [done | apply le_refl]. }
  assert (Hnew : filter P new = []).
  { apply filter_none, Forall_forall. intros n Hn (o & Ho & Hle)%Exists_exists.
    by apply (Hworse o n). }
  assert (Hcount : filter P kept ++ filter P rest ≡ₚ old).
  { by rewrite <- filter_app, Hperm, filter_app, Hold, Hnew, app_nil_r. }
  assert (Hrest : filter P rest = []).
  { destruct (filter P rest) as [|b rest'] eqn:Eb; [done |]. exfalso.
    assert (Hb : b ∈ filter P rest) by (rewrite Eb; left).
    apply list_elem_of_filter in Hb as [(o & Ho & Hle)%Exists_exists Hb].
    assert (Hall : filter P kept = kept).
    { apply filter_all, Forall_forall. intros a Ha.
      apply Exists_exists. exists o. split; [done |].
      eapply le_trans; [by apply Hdom | done]. }
    apply Permutation_length in Hcount.
    rewrite Hall, length_app in Hcount. simpl in Hcount. lia. }
  rewrite Hrest, app_nil_r in Hcount.
  assert (Hall : Forall P kept).
  { apply (filter_full_length P). apply Permutation_length in Hcount. lia. }
  by rewrite <- Hcount, (filter_all P kept Hall).
Qed.

End SelectionMore.

(** ** CustomGA: what [tell] keeps *)

Section CustomGAMore.
Import Jnp Selection CustomGA Evolution.
Context {R : Primitives}.
Variable self : CustomGA.

Lemma tell_fit (state : State) (fitness : list Fitness.t) :
  fit (tell self state fitness)
  = (take (pop_size self) (ranked (fit state ++ fitness))).*2.
Proof.
  pose proof (tell_pop_fit self state fitness) as Ht.
  by apply (f_equal snd) in Ht.
Qed.

Lemma tell_fit_length (state : State) (fitness : list Fitness.t) :
  pop_size self ≤ length (fit state) + length fitness →
  length (fit (tell self state fitness)) = pop_size self.
Proof.
  intros Hk. rewrite tell_fit, length_fmap, length_take, ranked_length, length_app.
  lia.
Qed.

Lemma tell_pop_fit_length (state : State) (fitness : list Fitness.t) :
  length (pop (tell self state fitness)) = length (fit (tell self state fitness)).
Proof.
  pose proof (tell_pop_fit self state fitness) as Ht.
  pose proof (f_equal fst Ht) as Hp. pose proof (f_equal snd Ht) as Hf.
  cbn [fst snd] in Hp, Hf. rewrite Hp, Hf. unfold topk_fit. cbn [fst snd].
  by rewrite !length_fmap.
Qed.

(** The (individual, fitness) pairs [tell] keeps, and the pairs it leaves
    out, are the pairs of the population and of the offsprings; nothing
    left out is better than anything kept. *)
Lemma tell_pairs (state : State) (fitness : list Fitness.t) :
  length (pop state) = length (fit state) →
  length (offsprings state) = length fitness →
  ∃ rest : list (list bool * Fitness.t),
    zip (pop (tell self state fitness)) (fit (tell self state fitness)) ++ rest
    ≡ₚ zip (pop state) (fit state) ++ zip (offsprings state) fitness
    ∧ ∀ a b, a ∈ zip (pop (tell self state fitness)) (fit (tell self state fitness)) →
             b ∈ rest → Fitness.le a.2 b.2.
Proof.
  intros Hpop Hoff.
  pose proof (tell_pop_fit self state fitness) as Ht. unfold concatenate in Ht.
  destruct (topk_fit_selects (pop state ++ offsprings state) (fit state ++ fitness)
              (pop_size self)) as (rest & Hperm & Hdom).
  { rewrite !length_app. lia. }
  rewrite <- Ht in Hperm, Hdom. cbn [fst snd] in Hperm, Hdom.
  exists rest. split.
  - rewrite <- Hperm. by rewrite (zip_with_app pair).
  - intros [row x] b Ha Hb. apply Hdom; [| done]. by eapply elem_of_zip_r.
Qed.

Lemma zip_elem_Forall2 {A B} (P : A → B → Prop) (l : list A) (k : list B) :
  length l = length k → (∀ x y, (x, y) ∈ zip l k → P x y) → Forall2 P l k.
Proof.
  revert k. induction l as [|x l IH]; intros [|y k] Hlen Hp; try done.
  constructor.
  - apply Hp. left.
  - apply IH; [by injection Hlen |]. intros x' y' Hin. apply Hp. by right.
Qed.

Lemma Forall2_zip_elem {A B} (P : A → B → Prop) (l : list A) (k : list B) (x : A) (y : B) :
  Forall2 P l k → (x, y) ∈ zip l k → P x y.
Proof.
  induction 1 as [|x' y' l k Hxy _ IH]; [by intros ?%elem_of_nil |].
  intros [[= -> ->] | Hin]%elem_of_cons; [done | by apply IH].
Qed.

Lemma zip_elem_l {A B} (l : list A) (k : list B) (x : A) :
  length l = length k → x ∈ l → ∃ y, (x, y) ∈ zip l k.
Proof.
  intros Hlen (i & Hi)%list_elem_of_lookup.
  destruct (lookup_lt_is_Some_2 k i) as [y Hy].
  { rewrite <- Hlen. by eapply lookup_lt_Some. }
  exists y. apply list_elem_of_lookup. exists i.
  by rewrite lookup_zip_with, Hi, Hy.
Qed.

(** X7.  When every offspring is worse than every member of the
    population, [tell] rejects them all: the individuals it keeps, with
    their fitness, are those of the population (put in order of fitness). *)
Theorem tell_rejects_worse_offsprings (state : State) (fitness : list Fitness.t)
    (Hpop : length (pop state) = pop_size self)
    (Hfit : length (fit state) = pop_size self)
    (Hoff : length (offsprings state) = length fitness)
    (Hworse : ∀ x y, x ∈ fit state → y ∈ fitness → ¬ Fitness.le y x) :
  zip (pop (tell self state fitness)) (fit (tell self state fitness))
  ≡ₚ zip (pop state) (fit state).
Proof.
  destruct (tell_pairs state fitness) as (rest & Hperm & Hdom); [lia | done |].
  eapply selection_keeps_old; [exact Hperm | | exact Hdom |].
  - rewrite !length_zip_with, tell_pop_fit_length.
    rewrite tell_fit_length by lia. lia.
  - intros [r x] [r' y] Ho Hn. simpl. apply Hworse.
    + by eapply elem_of_zip_r.
    + by eapply elem_of_zip_r.
Qed.

(** X8.  Told at least pop_size fitness values none of which is the
    placeholder [jnp.inf], [tell] leaves no placeholder in [fit]. *)
Theorem tell_drops_placeholders (state : State) (fitness : list Fitness.t)
    (Hlen : pop_size self ≤ length fitness)
    (Hfin : Forall (λ x, x ≠ Fitness.PInf) fitness) :
  Forall (λ x, x ≠ Fitness.PInf) (fit (tell self state fitness)).
Proof.
  rewrite tell_fit. apply ranked_prefix_finite.
  rewrite filter_app, length_app, (filter_all _ fitness Hfin). lia.
Qed.

(** X9.  The fitness of a state whose [fit] has pop_size entries never
    gets worse anywhere: every fitness value [tell] keeps is at least as
    good as some fitness value of the population before, so the worst
    member after is no worse than the worst member before. *)
Theorem tell_worst_never_worsens (state : State) (fitness : list Fitness.t)
    (a : Fitness.t)
    (Hfit : length (fit state) = pop_size self)
    (Ha : a ∈ fit (tell self state fitness)) :
  ∃ o, o ∈ fit state ∧ Fitness.le a o.
Proof.
  rewrite tell_fit in Ha. eapply ranked_prefix_below; [| exact Ha]. lia.
Qed.

Lemma sorted_minimum_first (l : list Fitness.t) :
  StronglySorted Fitness.le l → Fitness.minimum l = l !! 0.
Proof.
  destruct 1 as [|x l _ Hx]; [done |]. simpl.
  destruct (Fitness.minimum l) as [m|] eqn:Em; [| done].
  apply minimum_Some in Em as [Hm _]. rewrite Forall_forall in Hx.
  specialize (Hx m Hm). unfold Fitness.min. by rewrite Hx.
Qed.

(** X12.  After [tell] the best individual comes first: the best fitness
    of the population is entry 0 of [fit] (and there is none exactly when
    the population is empty). *)
Theorem tell_best_first (state : State) (fitness : list Fitness.t) :
  Fitness.minimum (fit (tell self state fitness))
  = fit (tell self state fitness) !! 0.
Proof.
  apply sorted_minimum_first.
  pose proof (topk_fit_sorted (pop state ++ offsprings state)
                (fit state ++ fitness) (pop_size self)) as Hs.
  pose proof (tell_pop_fit self state fitness) as Ht. unfold concatenate in Ht.
  by rewrite <- Ht in Hs.
Qed.

Lemma setup_fit (k : prng_key) :
  fit (setup self k) = replicate (pop_size self) Fitness.PInf.
Proof. unfold setup. by destruct (split k). Qed.

(** X10.  The random population [setup] draws is never evaluated: its
    fitness is the placeholder.  At the first [tell] after [setup] and
    [ask], told the (finite) fitness of the offsprings, it is discarded
    whole: every individual kept is an offspring, with the fitness told
    for it. *)
Theorem first_tell_discards_initial_population
    (key : prng_key) (fitness : list Fitness.t)
    (HR : PrimitivesShape R)
    (Hlen : length fitness = 2 * pop_size self)
    (Hfin : Forall (λ x, x ≠ Fitness.PInf) fitness) :
  let s := (ask self (setup self key)).2 in
  let t := tell self s fitness in
  (∀ row x, (row, x) ∈ zip (pop t) (fit t) → (row, x) ∈ zip (offsprings s) fitness)
  ∧ Forall (λ row, row ∈ offsprings s) (pop t).
Proof.
  intros s t.
  pose proof (ask_well_shaped self _ HR (setup_well_shaped self key HR))
    as ([Hpop _] & Hfit & [Hoff _]). fold s in Hpop, Hfit, Hoff.
  assert (Hinf : ∀ x, x ∈ fit s → x = Fitness.PInf).
  { intros x Hx. unfold s in Hx.
    rewrite (proj2 (ask_keeps_pop_fit self (setup self key))), setup_fit in Hx.
    by apply elem_of_replicate in Hx as [-> _]. }
  assert (Hnew : Forall (λ x, x ≠ Fitness.PInf) (fit t)).
  { unfold t. rewrite tell_fit. apply ranked_prefix_finite.
    rewrite filter_app, length_app, (filter_all _ fitness Hfin). lia. }
  destruct (tell_pairs s fitness) as (rest & Hperm & _); [lia | lia |].
  fold t in Hperm.
  assert (Hpairs : ∀ row x, (row, x) ∈ zip (pop t) (fit t) →
                            (row, x) ∈ zip (offsprings s) fitness).
  { intros row x Hin.
    assert (Hin' : (row, x) ∈ zip (pop t) (fit t) ++ rest)
      by (apply elem_of_app; by left).
    rewrite Hperm in Hin'. apply elem_of_app in Hin' as [Hold | Hoffs]; [| done].
    exfalso. rewrite Forall_forall in Hnew.
    apply (Hnew x); [by eapply elem_of_zip_r |].
    apply Hinf. by eapply elem_of_zip_r. }
  split; [exact Hpairs |].
  apply Forall_forall. intros row Hrow.
  destruct (zip_elem_l (pop t) (fit t) row) as [x Hx];
    [apply tell_pop_fit_length | done |].
  eapply elem_of_zip_l, Hpairs, Hx.
Qed.

Section Evaluated.
Variable fitness_of : list bool → Fitness.t.

Lemma tell_in_step (state : State) :
  Forall2 (in_step fitness_of) (pop state) (fit state) →
  Forall2 (in_step fitness_of)
    (pop (tell self state (fitness_of <$> offsprings state)))
    (fit (tell self state (fitness_of <$> offsprings state))).
Proof.
  intros Hstep.
  destruct (tell_pairs state (fitness_of <$> offsprings state))
    as (rest & Hperm & _).
  { by eapply Forall2_length. }
  { by rewrite length_fmap. }
  apply zip_elem_Forall2; [apply tell_pop_fit_length |].
  intros row x Hin.
  assert (Hin' : (row, x) ∈ zip (pop (tell self state (fitness_of <$> offsprings state)))
                             (fit (tell self state (fitness_of <$> offsprings state)))
                           ++ rest) by (apply elem_of_app; by left).
  rewrite Hperm in Hin'. apply elem_of_app in Hin' as [Hold | Hoffs].
  - by eapply Forall2_zip_elem.
  - right.
    apply elem_of_lookup_zip_with in Hoffs as (i & r & y & [= -> ->] & Hr & Hy).
    rewrite list_lookup_fmap, Hr in Hy. by injection Hy as <-.
Qed.

Lemma evaluated_in_step (state : State) :
  PrimitivesShape R → evaluated self fitness_of state →
  Forall2 (in_step fitness_of) (pop state) (fit state).
Proof.
  intros HR. induction 1 as [k | s _ IH | s _ IH].
  - destruct (setup_well_shaped self k HR) as ([Hpop _] & Hfit & _).
    apply zip_elem_Forall2; [lia |]. intros row x Hin. left.
    apply elem_of_zip_r in Hin. rewrite setup_fit in Hin.
    by apply elem_of_replicate in Hin as [-> _].
  - destruct (ask_keeps_pop_fit self s) as [-> ->]. exact IH.
  - by apply tell_in_step.
Qed.

Lemma evaluated_well_shaped (state : State) :
  PrimitivesShape R → evaluated self fitness_of state → well_shaped self state.
Proof.
  intros HR. induction 1 as [k | s _ IH | s _ IH].
  - by apply setup_well_shaped.
  - by apply ask_well_shaped.
  - apply tell_well_shaped; [done |].
    destruct IH as (_ & _ & [Hoff _]). by rewrite length_fmap.
Qed.

Lemma in_step_finite (l : list (list bool)) (k : list Fitness.t) :
  Forall2 (in_step fitness_of) l k →
  Forall (λ x, x ≠ Fitness.PInf) k → k = fitness_of <$> l.
Proof.
  induction 1 as [|row x l k [-> | ->] _ IH]; intros Hfin; [done | |].
  - by apply Forall_cons in Hfin as [[] _].
  - apply Forall_cons in Hfin as [_ Hfin]. csimpl. f_equal. by apply IH.
Qed.

(** X11.  Along a run in which every [tell] is handed the fitness of the
    offsprings, [fit] stays in step with [pop]: entry i of [fit] is the
    fitness of individual i of [pop], or still the placeholder.  When no
    individual has the placeholder for fitness, one generation ([ask], then
    [tell]) is enough for [fit] to be exactly the fitness of [pop]. *)
Theorem fit_follows_pop (state : State)
    (HR : PrimitivesShape R) (Hrun : evaluated self fitness_of state) :
  Forall2 (in_step fitness_of) (pop state) (fit state)
  ∧ ((∀ row, fitness_of row ≠ Fitness.PInf) →
     let s := (ask self state).2 in
     let t := tell self s (fitness_of <$> offsprings s) in
     fit t = fitness_of <$> pop t).
Proof.
  split; [by apply evaluated_in_step |].
  intros Hfinite s t.
  assert (Hs : evaluated self fitness_of s) by (by apply eval_ask).
  pose proof (evaluated_well_shaped s HR Hs) as (_ & _ & [Hoff _]).
  apply in_step_finite.
  - apply evaluated_in_step; [done |]. by apply eval_tell.
  - unfold t. rewrite tell_fit. apply ranked_prefix_finite.
    rewrite filter_app, length_app.
    rewrite (filter_all _ (fitness_of <$> offsprings s)).
    + rewrite length_fmap. lia.
    + apply Forall_fmap, Forall_forall. intros row _. apply Hfinite.
Qed.

End Evaluated.

End CustomGAMore.

(** ** The further properties at concrete inputs *)

Section MoreInstances.
Import Jnp CustomGA Reference Samples Evolution Pong PongPolicy.

Lemma three_bitstrings_shape :
  Forall (λ row : list bool, length row = 5) three_bitstrings.
Proof. repeat constructor. Defined.

Lemma evaluate_bounds_witness :
  Forall (λ row : list bool, length row = 5) three_bitstrings
  ∧ (0 ≤ 3 ≤ Z.of_nat 5)%Z.
Proof.
  split; [exact three_bitstrings_shape |].
  apply (evaluate_bounds tt three_bitstrings 5 0 3 three_bitstrings_shape eq_refl).
Defined.

Lemma evaluate_optimum_witness :
  three_bitstrings !! 1 = Some (replicate 5 true)
  ∧ ((OneMax.evaluate tt three_bitstrings).1 !! 1 = Some 5%Z
     ↔ replicate 5 true = replicate 5 true).
Proof.
  split; [reflexivity |].
  apply (evaluate_optimum tt three_bitstrings 1 (replicate 5 true) eq_refl).
Defined.

Lemma evaluate_flip_witness :
  (OneMax.evaluate tt [[false; false; false; true; true]; replicate 5 true;
                       replicate 5 false]).1
  = [2; 5; 0]%Z.
Proof.
  apply (evaluate_flip tt three_bitstrings 0 1 [false; true; false; true; true]
           true eq_refl eq_refl).
Defined.

Lemma short_frame_shape : shape3 40 6 3 short_frame.
Proof.
  unfold short_frame. split; [by rewrite length_fmap, length_seq |].
  apply Forall_fmap, Forall_forall. intros i _. unfold compose. cbn beta.
  split; [by rewrite length_fmap, length_seq |].
  apply Forall_fmap, Forall_forall. intros j _. unfold compose. cbn beta.
  by destruct ((i =? 37) && (j =? 2)).
Defined.

Example short_frame_output :
  pong_preprocess short_frame = [[0; 0; 0]; [0; 1; 0]; [0; 0; 0]]%Z.
Proof. by vm_compute. Qed.

Lemma pong_preprocess_any_shape_witness :
  shape3 40 6 3 short_frame ∧ 0 < 3
  ∧ shape2 3 3 (pong_preprocess short_frame).
Proof.
  split; [exact short_frame_shape |]. split; [lia |].
  apply (pong_preprocess_any_shape short_frame 40 6 3 short_frame_shape
           (Nat.lt_0_succ 2)).
Defined.

Lemma repainted_frame_shape : shape3 210 160 3 repainted_frame.
Proof.
  destruct pong_frame_shape as [Hrows Hpx]. unfold repainted_frame.
  split; [by rewrite length_fmap |].
  apply Forall_fmap. eapply Forall_impl; [exact Hpx |].
  intros row [Hlen _]. unfold compose. split; [by rewrite length_fmap |].
  apply Forall_fmap, Forall_forall. by intros px _.
Defined.

Lemma repainted_frame_red (a b : nat) :
  red pong_frame a b = red repainted_frame a b.
Proof.
  destruct pong_frame_shape as [_ Hpx]. unfold red, repainted_frame.
  rewrite list_lookup_fmap.
  destruct (pong_frame !! a) as [row|] eqn:Ea; [| done].
  cbn [mbind option_bind fmap option_fmap option_map].
  rewrite list_lookup_fmap. destruct (row !! b) as [px|] eqn:Eb; [| done].
  cbn [mbind option_bind fmap option_fmap option_map].
  rewrite Forall_lookup in Hpx. destruct (Hpx _ _ Ea) as [_ Hch].
  rewrite Forall_lookup in Hch. specialize (Hch _ _ Eb). simpl in Hch.
  by destruct px.
Defined.

Lemma pong_preprocess_red_only_witness :
  shape3 210 160 3 pong_frame ∧ shape3 210 160 3 repainted_frame ∧ 0 < 3
  ∧ pong_preprocess pong_frame = pong_preprocess repainted_frame.
Proof.
  split; [exact pong_frame_shape |]. split; [exact repainted_frame_shape |].
  split; [lia |].
  apply (pong_preprocess_red_only pong_frame repainted_frame 210 160 3
           pong_frame_shape repainted_frame_shape (Nat.lt_0_succ 2)
           (λ i j _, repainted_frame_red (35 + 2 * i) (2 * j))).
Defined.

Lemma features_spec_witness :
  shape3 210 160 3 pong_frame ∧ length (features pong_frame) = 80 * 80.
Proof.
  split; [exact pong_frame_shape |].
  apply (features_spec pong_frame pong_frame_shape).
Defined.

Example settled_state_fit :
  fit settled_state = Fitness.Fin <$> [-3; -3; -3; -2]%Z.
Proof. by vm_compute. Qed.

Lemma worse_fitness_is_worse (x y : Fitness.t) :
  x ∈ fit settled_state → y ∈ worse_fitness → ¬ Fitness.le y x.
Proof.
  assert (H : Forall (λ x, Forall (λ y, ¬ Fitness.le y x) worse_fitness)
                     (fit settled_state)) by compute_done.
  intros Hx Hy. rewrite Forall_forall in H. specialize (H x Hx).
  rewrite Forall_forall in H. by apply H.
Defined.

Lemma tell_rejects_worse_offsprings_witness :
  length (pop settled_state) = pop_size small_ga
  ∧ length (fit settled_state) = pop_size small_ga
  ∧ length (offsprings settled_state) = length worse_fitness
  ∧ zip (pop (tell small_ga settled_state worse_fitness))
        (fit (tell small_ga settled_state worse_fitness))
    ≡ₚ zip (pop settled_state) (fit settled_state).
Proof.
  split; [reflexivity |]. split; [reflexivity |]. split; [reflexivity |].
  apply (tell_rejects_worse_offsprings (R := ref_primitives) small_ga
           settled_state worse_fitness eq_refl eq_refl eq_refl
           worse_fitness_is_worse).
Defined.

Lemma small_fitness_finite : Forall (λ x, x ≠ Fitness.PInf) small_fitness.
Proof. compute_done. Defined.

Lemma tell_drops_placeholders_witness :
  pop_size small_ga ≤ length small_fitness
  ∧ Forall (λ x, x ≠ Fitness.PInf) small_fitness
  ∧ Forall (λ x, x ≠ Fitness.PInf) (fit (tell small_ga small_state small_fitness)).
Proof.
  assert (Hlen : pop_size small_ga ≤ length small_fitness) by (vm_compute; lia).
  split; [exact Hlen |]. split; [exact small_fitness_finite |].
  apply (tell_drops_placeholders (R := ref_primitives) small_ga small_state
           small_fitness Hlen small_fitness_finite).
Defined.

Lemma better_fitness_kept :
  Fitness.Fin (-5) ∈ fit (tell small_ga settled_state better_fitness).
Proof. compute_done. Defined.

Lemma tell_worst_never_worsens_witness :
  length (fit settled_state) = pop_size small_ga
  ∧ Fitness.Fin (-5) ∈ fit (tell small_ga settled_state better_fitness)
  ∧ ∃ o, o ∈ fit settled_state ∧ Fitness.le (Fitness.Fin (-5)) o.
Proof.
  split; [reflexivity |]. split; [exact better_fitness_kept |].
  apply (tell_worst_never_worsens (R := ref_primitives) small_ga
           settled_state better_fitness (Fitness.Fin (-5)) eq_refl
           better_fitness_kept).
Defined.

Lemma first_tell_discards_initial_population_witness :
  length small_fitness = 2 * pop_size small_ga
  ∧ Forall (λ x, x ≠ Fitness.PInf) small_fitness
  ∧ Forall (λ row, row ∈ offsprings asked_state)
           (pop (tell small_ga asked_state small_fitness)).
Proof.
  split; [reflexivity |]. split; [exact small_fitness_finite |].
  apply (first_tell_discards_initial_population (R := ref_primitives) small_ga
           42 small_fitness ref_primitives_shape eq_refl small_fitness_finite).
Defined.

Lemma asked_state_evaluated : evaluated small_ga onemax_of asked_state.
Proof. apply eval_ask, eval_setup. Defined.

Example onemax_generation :
  let t := tell small_ga (ask small_ga asked_state).2
             (onemax_of <$> offsprings (ask small_ga asked_state).2) in
  fit t = Fitness.Fin <$> [2; 2; 2; 2]%Z ∧ fit t = onemax_of <$> pop t.
Proof. by vm_compute. Qed.

Lemma fit_follows_pop_witness :
  evaluated small_ga onemax_of asked_state
  ∧ Forall2 (in_step onemax_of) (pop asked_state) (fit asked_state).
Proof.
  split; [exact asked_state_evaluated |].
  apply (fit_follows_pop (R := ref_primitives) small_ga onemax_of asked_state
           ref_primitives_shape asked_state_evaluated).
Defined.

End MoreInstances.
